(** * Assignment2: the charge-data loader and its statistics

    A shallow embedding of [Assignment2/Assignment2.cpp]: the string
    helpers of namespace [String], the formatted extraction that
    [ChargeDataModel::loadDataFromFile] performs on every line, the
    loader itself with the state of the [ChargeDataModel] object, the
    three functions of namespace [DataAnalysis], and the loop of [main]
    that processes the requested files.

    Conventions.
    - [std::string] is a list of characters ([str]).
    - [double] is IEEE 754 binary64, i.e. Rocq's primitive [float].
    - [unsigned int] is a [Z] in the range [0, 2^32); arithmetic on it
      is written with its wrap-around ([wrap32]).
    - Streams follow ISO C++11 (the source needs C++11: lambdas,
      [nullptr], member initialisers, range-for) in the classic "C"
      locale. *)

From Stdlib Require Import Ascii String.
From Stdlib Require Import ZArith List Bool Lia.
From Stdlib Require Import Floats SpecFloat.
Import ListNotations.

#[local] Open Scope Z_scope.

(** ** Characters and strings *)

Definition str : Type := list ascii.

(** A string literal as a [str]. *)
Definition lit (s : string) : str := list_ascii_of_string s.

(** The newline character. *)
Definition nl : ascii := "010"%char.

(** [std::isspace] in the "C" locale: space, and the controls
    [\t \n \v \f \r] (codes 9 to 13). *)
Definition isspace (c : ascii) : bool :=
  let n := nat_of_ascii c in
  Nat.eqb n 32 || (Nat.leb 9 n && Nat.leb n 13).

Definition nonspace (c : ascii) : bool := negb (isspace c).

Definition is_digit (c : ascii) : bool :=
  let n := nat_of_ascii c in
  Nat.leb 48 n && Nat.leb n 57.

Definition digit_value (c : ascii) : Z := Z.of_nat (nat_of_ascii c) - 48.

Definition empty (s : str) : bool :=
  match s with [] => true | _ :: _ => false end.

(** *** namespace String *)

(** [String::ltrim]: erase from the beginning up to the first character
    that is not whitespace. *)
Fixpoint ltrim (s : str) : str :=
  match s with
  | [] => []
  | c :: s' => if isspace c then ltrim s' else s
  end.

(** [String::rtrim]: the same search through the reverse iterators;
    everything after the last character that is not whitespace goes. *)
Definition rtrim (s : str) : str := rev (ltrim (rev s)).

(** [String::trim]. *)
Definition trim (s : str) : str := rtrim (ltrim s).

(** ** Input streams

    What [std::fstream] and [std::stringstream] share: the characters
    not yet read and the two state bits the program can set
    ([badbit] never is). *)

Record istream : Type := mkStream {
  buf : str;
  eofbit : bool;
  failbit : bool
}.

Definition good (s : istream) : bool := negb (eofbit s) && negb (failbit s).

Definition setfail (s : istream) : istream :=
  mkStream (buf s) (eofbit s) true.

(** [std::stringstream sstream(line)]. *)
Definition stringstream (line : str) : istream := mkStream line false false.

(** The [sentry] of a formatted input function ([skipws] set): on a good
    stream it skips whitespace; reaching the end there sets [eofbit] and
    [failbit]. A stream that is not good gets [failbit]. The boolean is
    the sentry's verdict. *)
Definition sentry (s : istream) : bool * istream :=
  if good s then
    match ltrim (buf s) with
    | [] => (false, mkStream [] true true)
    | c :: r => (true, mkStream (c :: r) false false)
    end
  else (false, setfail s).

(** *** Extraction of a [double]

    [num_get] reads the longest prefix that can still become a decimal
    floating literal (stage 2) and then converts it (stage 3). The
    characters accumulated are kept by their role. *)

Record field : Type := mkField {
  f_sign : option bool;               (* a sign; [Some true] is '-' *)
  f_int : str;                        (* digits before the point *)
  f_point : bool;                     (* a decimal point *)
  f_frac : str;                       (* digits after the point *)
  f_exp : option (option bool * str)  (* 'e'/'E', its sign, its digits *)
}.

Definition scan_sign (s : str) : option bool * str :=
  match s with
  | c :: r =>
      if Ascii.eqb c "+" then (Some false, r)
      else if Ascii.eqb c "-" then (Some true, r)
      else (None, s)
  | [] => (None, s)
  end.

Fixpoint scan_digits (s : str) : str * str :=
  match s with
  | c :: r =>
      if is_digit c then let (d, r') := scan_digits r in (c :: d, r')
      else ([], s)
  | [] => ([], [])
  end.

(** Stage 2. An exponent marker is taken only after a digit of the
    mantissa; a second point, a second marker or any other character
    ends the field. The second component is what stays in the stream. *)
Definition scan_float (s : str) : field * str :=
  let (sg, r0) := scan_sign s in
  let (ip, r1) := scan_digits r0 in
  let '(pt, fp, r2) :=
    match r1 with
    | c :: r =>
        if Ascii.eqb c "." then let (fp, r') := scan_digits r in (true, fp, r')
        else (false, [], r1)
    | [] => (false, [], r1)
    end in
  let found_mantissa := negb (empty ip) || negb (empty fp) in
  let '(ex, r3) :=
    match r2 with
    | c :: r =>
        if (Ascii.eqb c "e" || Ascii.eqb c "E") && found_mantissa then
          let (esg, r') := scan_sign r in
          let (ed, r'') := scan_digits r' in
          (Some (esg, ed), r'')
        else (None, r2)
    | [] => (None, r2)
    end in
  (mkField sg ip pt fp ex, r3).

(** The field is a complete literal: a digit in the mantissa and, after
    an exponent marker, a digit in the exponent. *)
Definition field_ok (f : field) : bool :=
  (negb (empty (f_int f)) || negb (empty (f_frac f))) &&
  match f_exp f with
  | Some (_, ed) => negb (empty ed)
  | None => true
  end.

Definition digits_value (d : str) : Z :=
  fold_left (fun acc c => 10 * acc + digit_value c) d 0.

Definition is_neg (sg : option bool) : bool :=
  match sg with Some true => true | _ => false end.

(** The literal as [mantissa * 10 ^ exponent]. *)
Definition field_mantissa (f : field) : Z := digits_value (f_int f ++ f_frac f).

Definition field_exponent (f : field) : Z :=
  match f_exp f with
  | Some (esg, ed) =>
      (if is_neg esg then - digits_value ed else digits_value ed)
  | None => 0
  end - Z.of_nat (length (f_frac f)).

(** [strtod] on a complete literal: the binary64 nearest to the decimal
    value (ties to even), infinite on overflow. The quotient of the two
    integers is rounded once. *)
Definition strtod (f : field) : float :=
  let neg := is_neg (f_sign f) in
  let e := field_exponent f in
  match (field_mantissa f * 10 ^ Z.max e 0)%Z, (10 ^ Z.max (- e) 0)%Z with
  | Zpos n, Zpos d =>
      SF2Prim (SFdiv prec emax (S754_finite neg n 0) (S754_finite false d 0))
  | _, _ => if neg then (-0)%float else 0%float
  end.

Definition DBL_MAX : float := 0x1.fffffffffffffp+1023%float.

(** Stage 3 (C++11, [facet.num.get.virtuals]): the value stored and
    whether [failbit] is raised. When the conversion does not take the
    entire field, zero is stored; when the value is out of range, the
    largest finite value of its sign is stored; both raise [failbit].
    Before C++11 a failed conversion left the variable as it was. *)
Definition convert (f : field) : float * bool :=
  if field_ok f then
    let v := strtod f in
    if PrimFloat.eqb v infinity then (DBL_MAX, true)
    else if PrimFloat.eqb v neg_infinity then ((- DBL_MAX)%float, true)
    else (v, false)
  else (0%float, true).

(** [is >> val] for a [double]. When the sentry refuses (the stream is
    not good, or holds nothing but whitespace), [num_get] is not called,
    nothing is stored and [val] keeps its value. [eofbit] is raised when
    the scan runs into the end of the stream. *)
Definition extract_double (s : istream) (val : float) : istream * float :=
  let (ok, s1) := sentry s in
  if ok then
    let (f, rest) := scan_float (buf s1) in
    let (v, err) := convert f in
    (mkStream rest (empty rest) err, v)
  else (s1, val).

(** *** Extraction of a [std::string] *)

Fixpoint scan_word (s : str) : str * str :=
  match s with
  | c :: r =>
      if isspace c then ([], s)
      else let (w, r') := scan_word r in (c :: w, r')
  | [] => ([], [])
  end.

(** [is >> word]: after the sentry, characters up to the next
    whitespace. When the sentry refuses, [word] keeps its value. *)
Definition extract_string (s : istream) (word : str) : istream * str :=
  let (ok, s1) := sentry s in
  if ok then
    let (w, rest) := scan_word (buf s1) in
    (mkStream rest (empty rest) (empty w), w)
  else (s1, word).

(** [std::getline(is, line)] into a fresh, empty [line]: characters up
    to the next newline, which is taken from the stream and dropped. *)
Fixpoint scan_line (s : str) : str * option str :=
  match s with
  | c :: r =>
      if Ascii.eqb c nl then ([], Some r)
      else let (l, r') := scan_line r in (c :: l, r')
  | [] => ([], None)
  end.

Definition getline (s : istream) : istream * str :=
  if good s then
    match scan_line (buf s) with
    | (l, Some r) => (mkStream r false false, l)
    | (l, None) => (mkStream [] true (empty l), l)
    end
  else (setfail s, []).

(** ** Validation of one line

    The body of the loop of [loadDataFromFile] between [getline] and
    the store: [Some charge] when the line is kept, [None] when it is
    reported as corrupt. *)
Definition validate (line : str) : option float :=
  let line := trim line in
  let sstream := stringstream line in
  let (sstream1, possibleCharge) := extract_double sstream (-1)%float in
  let (_, emptyTest) := extract_string sstream1 [] in
  if (possibleCharge <? 0)%float || negb (empty emptyTest) then None
  else Some possibleCharge.

(** ** The process: console output, [exit], undefined behaviour *)

(** [unsigned int] arithmetic. *)
Definition wrap32 (z : Z) : Z := z mod 2 ^ 32.

(** [(double)n] for an [unsigned int] [n]; exact. *)
Definition double_of_uint (n : Z) : float := PrimFloat.of_uint63 (Uint63.of_Z n).

(** What the program writes to [std::cout], one event per message. *)
Inductive event : Type :=
| CouldNotOpen (filepath : str)
    (* "Could not open file: <filepath>." "Exiting..." *)
| CorruptDataPoint (filepath : str)
    (* "File: <filepath> has a corrupt data point." "Skipping that data point." *)
| Report (file : str) (mean errorInTheMean standardDeviation : float)
    (* "File read from: ..." and the two results *)
| PressAnyKey.

(** How a computation ends: it returns, the process is terminated by
    [exit], or the language leaves its behaviour undefined (a store or a
    read outside an array, a read of an indeterminate value). *)
Inductive outcome (A : Type) : Type :=
| Returned (a : A)
| Exited (status : Z)
| Undefined.

Arguments Returned {A} a.
Arguments Exited {A} status.
Arguments Undefined {A}.

(** A computation writes to the console and ends in an [outcome]. *)
Definition io (A : Type) : Type := list event -> outcome A * list event.

Definition ret {A} (a : A) : io A := fun out => (Returned a, out).

Definition bind {A B} (m : io A) (k : A -> io B) : io B :=
  fun out =>
    match m out with
    | (Returned a, out') => k a out'
    | (Exited s, out') => (Exited s, out')
    | (Undefined, out') => (Undefined, out')
    end.

Definition print (e : event) : io unit := fun out => (Returned tt, out ++ [e]).

Definition exit {A} (status : Z) : io A := fun out => (Exited status, out).

Definition undefined {A} : io A := fun out => (Undefined, out).

Notation "x <- m ;; k" := (bind m (fun x => k))
  (at level 61, m at next level, right associativity).
Notation "' p <- m ;; k" := (bind m (fun p => k))
  (at level 61, p pattern, m at next level, right associativity).

(** ** class ChargeDataModel *)

(** The files that exist, by path. *)
Definition filesystem : Type := str -> option str.

(** An open [std::fstream]: the characters of the file and the read
    side. *)
Record fstream : Type := mkFile {
  contents : str;
  input : istream
}.

(** A [double] array from [new double[n]]: a cell is indeterminate
    ([None]) until it is stored to. *)
Definition array : Type := list (option float).

Record ChargeDataModel : Type := mkModel {
  m_file : option fstream;    (* [None]: not open *)
  m_filepath : str;
  m_charges : option array    (* [None]: [nullptr] *)
}.

(** The object as constructed. *)
Definition new_model : ChargeDataModel := mkModel None [] None.

Definition init (this : ChargeDataModel) (filepath : str) : ChargeDataModel :=
  mkModel (m_file this) filepath (m_charges this).

Definition dispose (this : ChargeDataModel) : ChargeDataModel :=
  mkModel None (m_filepath this) None.

Definition openFile (fs : filesystem) (this : ChargeDataModel)
  : bool * ChargeDataModel :=
  match fs (m_filepath this) with
  | Some c =>
      (true, mkModel (Some (mkFile c (mkStream c false false)))
                     (m_filepath this) (m_charges this))
  | None => (false, this)
  end.

Fixpoint count_nl (s : str) : Z :=
  match s with
  | [] => 0
  | c :: r => (if Ascii.eqb c nl then 1 else 0) + count_nl r
  end.

(** [getLineCount]: the newline characters from the read position to
    the end, as an [unsigned int]; then the stream is cleared and put
    back at the start of the file. *)
Definition getLineCount (f : fstream) : Z * fstream :=
  let seen := if good (input f) then buf (input f) else [] in
  (wrap32 (count_nl seen), mkFile (contents f) (mkStream (contents f) false false)).

Fixpoint update (i : nat) (v : option float) (a : array) : array :=
  match a, i with
  | [], _ => []
  | _ :: a', O => v :: a'
  | x :: a', S i' => x :: update i' v a'
  end.

(** [charges[idx] = v]. *)
Definition store (charges : array) (idx : Z) (v : float) : io array :=
  if idx <? Z.of_nat (length charges)
  then ret (update (Z.to_nat idx) (Some v) charges)
  else undefined.

(** The loop of [loadDataFromFile], by the number [n] of iterations
    left ([maxSize - i]); its variables are the stream, the array and
    [finalSize]. *)
Fixpoint load_loop (filepath : str) (maxSize : Z) (n : nat) (i : Z)
    (file : istream) (charges : array) (finalSize : Z)
  : io (istream * array * Z) :=
  match n with
  | O => ret (file, charges, finalSize)
  | S n' =>
      let (file1, line) := getline file in
      match validate line with
      | None =>
          _ <- print (CorruptDataPoint filepath) ;;
          load_loop filepath maxSize n' (i + 1) file1 charges (wrap32 (finalSize - 1))
      | Some possibleCharge =>
          charges1 <- store charges (wrap32 (wrap32 (i - maxSize) + finalSize))
                            possibleCharge ;;
          load_loop filepath maxSize n' (i + 1) file1 charges1 finalSize
      end
  end.

(** [loadDataFromFile(size)]: the object afterwards and the value left
    in [size]. *)
Definition loadDataFromFile (fs : filesystem) (this : ChargeDataModel)
  : io (ChargeDataModel * Z) :=
  let (opened, this1) :=
    match m_file this with
    | Some _ => (true, this)
    | None => openFile fs this
    end in
  match opened, m_file this1 with
  | true, Some f =>
      let (maxSize, f1) := getLineCount f in
      let charges := repeat None (Z.to_nat maxSize) in
      ' (file2, charges2, finalSize) <-
        load_loop (m_filepath this1) maxSize (Z.to_nat maxSize) 0
                  (input f1) charges maxSize ;;
      ret (mkModel (Some (mkFile (contents f1) file2)) (m_filepath this1)
                   (Some charges2),
           finalSize)
  | _, _ =>
      _ <- print (CouldNotOpen (m_filepath this1)) ;;
      exit 0
  end.

(** [getChargeData(size)]: the object, the pointer returned and [size],
    which is written only when the data is loaded by this call. *)
Definition getChargeData (fs : filesystem) (this : ChargeDataModel)
    (size : option Z)
  : io (ChargeDataModel * option array * option Z) :=
  match m_charges this with
  | None =>
      ' (this1, size1) <- loadDataFromFile fs this ;;
      ret (this1, m_charges this1, Some size1)
  | Some _ => ret (this, m_charges this, size)
  end.

(** ** namespace DataAnalysis *)

(** [data[i]]. *)
Definition read (data : array) (i : Z) : option float :=
  match nth_error data (Z.to_nat i) with
  | Some (Some x) => Some x
  | _ => None
  end.

Fixpoint mean_loop (data : array) (n : nat) (i : Z) (total : float)
  : option float :=
  match n with
  | O => Some total
  | S n' =>
      match read data i with
      | Some x => mean_loop data n' (i + 1) (total + x)%float
      | None => None
      end
  end.

Definition computeMean (data : array) (size : Z) : option float :=
  match mean_loop data (Z.to_nat size) 0 0%float with
  | Some total => Some (total / double_of_uint size)%float
  | None => None
  end.

Definition computeStandardErrorInTheMean (mean : float) (size : Z) : float :=
  (mean / PrimFloat.sqrt (double_of_uint size))%float.

Section WithPow.

(** [std::pow] of the C library. *)
Variable pow : float -> float -> float.

Fixpoint deviation_loop (data : array) (mean : float) (n : nat) (i : Z)
    (total : float) : option float :=
  match n with
  | O => Some total
  | S n' =>
      match read data i with
      | Some x => deviation_loop data mean n' (i + 1) (total + pow (x - mean) 2)%float
      | None => None
      end
  end.

Definition computeStandardDeviation (data : array) (size : Z) (mean : float)
  : option float :=
  match deviation_loop data mean (Z.to_nat size) 0 0%float with
  | Some total => Some (PrimFloat.sqrt (total / double_of_uint (wrap32 (size - 1))))%float
  | None => None
  end.

(** ** main: the loop over [filesToLoad] *)

(** One iteration: [size] starts indeterminate. *)
Definition process_file (fs : filesystem) (model : ChargeDataModel) (file : str)
  : io ChargeDataModel :=
  let model := init model file in
  ' (model, data, size) <- getChargeData fs model None ;;
  match data, size with
  | Some data, Some size =>
      match computeMean data size with
      | Some mean =>
          match computeStandardDeviation data size mean with
          | Some standardDeviation =>
              let errorInTheMean := computeStandardErrorInTheMean mean size in
              _ <- print (Report file mean errorInTheMean standardDeviation) ;;
              ret (dispose model)
          | None => undefined
          end
      | None => undefined
      end
  | _, _ => undefined
  end.

Fixpoint main_loop (fs : filesystem) (filesToLoad : list str)
    (model : ChargeDataModel) : io ChargeDataModel :=
  match filesToLoad with
  | [] => ret model
  | file :: rest =>
      model1 <- process_file fs model file ;;
      main_loop fs rest model1
  end.

(** [main] once the file names have been asked for. *)
Definition main (fs : filesystem) (filesToLoad : list str) : io Z :=
  _ <- main_loop fs filesToLoad new_model ;;
  _ <- print PressAnyKey ;;
  ret 0.

End WithPow.

(** A stand-in for [std::pow] with the exponent 2.0, for the examples:
    the square, rounded once. The C library's [pow] is not bound to
    this value in the last place; where the square is exact (as for 0
    and for 1 and -1 in the examples) it is the value [pow] returns. *)
Definition pow_square (x y : float) : float := (x * x)%float.

(** ** Files as lines *)

(** The lines of a file, each with its terminating newline. *)
Definition join (lines : list str) : str :=
  flat_map (fun l => l ++ [nl]) lines.

(** A file: newline-terminated lines, then what follows the last
    newline (empty when the file ends in one). *)
Definition file_of (lines : list str) (tail : str) : str := join lines ++ tail.

Definition no_nl (l : str) : Prop := ~ In nl l.

(** The newline-terminated lines of a file and the unterminated rest. *)
Fixpoint split_lines (s : str) : list str * str :=
  match s with
  | [] => ([], [])
  | c :: r =>
      let (lines, tail) := split_lines r in
      if Ascii.eqb c nl then ([] :: lines, tail)
      else
        match lines with
        | [] => ([], c :: tail)
        | l :: lines' => ((c :: l) :: lines', tail)
        end
  end.

Definition lines_nl (s : str) : list str := fst (split_lines s).

(** The lines as the spec counts them: an unterminated last line is a
    line too. *)
Definition all_lines (s : str) : list str :=
  let (lines, tail) := split_lines s in
  if empty tail then lines else lines ++ [tail].

(** ** What a client of the class gets *)

(** The Dataset behind the pointer and [size] that [getChargeData]
    hands out: the first [size] cells, when they are all there and
    determinate. *)
Fixpoint determinate (cells : array) : option (list float) :=
  match cells with
  | [] => Some []
  | Some x :: r =>
      match determinate r with Some xs => Some (x :: xs) | None => None end
  | None :: _ => None
  end.

Definition Dataset (data : array) (size : Z) : option (list float) :=
  if (0 <=? size) && (size <=? Z.of_nat (length data))
  then determinate (firstn (Z.to_nat size) data)
  else None.

(** [load(path)]: a fresh object, [init], [getChargeData]; the result
    is the Dataset with its size. *)
Definition load (fs : filesystem) (filepath : str) : io (list float * Z) :=
  ' (_, data, size) <- getChargeData fs (init new_model filepath) None ;;
  match data, size with
  | Some data, Some size =>
      match Dataset data size with
      | Some d => ret (d, size)
      | None => undefined
      end
  | _, _ => undefined
  end.

(** The values of the lines that the validation keeps, in order. *)
Definition kept (lines : list str) : list float :=
  flat_map (fun l => match validate l with Some v => [v] | None => [] end) lines.

Definition rejected (l : str) : bool :=
  match validate l with Some _ => false | None => true end.

(** The lines that the loop reads: as many as [getLineCount] says. *)
Definition lines_read (content : str) : list str :=
  firstn (Z.to_nat (wrap32 (count_nl content))) (lines_nl content).

(** A file system with one file. *)
Definition one_file (filepath content : str) : filesystem :=
  fun p => if list_eq_dec ascii_dec p filepath then Some content else None.

(** [vs] laid over the cells of [a] from index [k] on. *)
Definition place (k : nat) (vs : list float) (a : array) : array :=
  firstn k a ++ map Some vs ++ skipn (k + length vs) a.

(** ** The words of the specification *)

(** The parse of a line as the loader performs it: the stream after the
    extraction of the [double], and the value left in the variable. *)
Definition parse (line : str) : istream * float :=
  extract_double (stringstream (trim line)) (-1)%float.

(** The line is all whitespace. *)
Definition blank (line : str) : bool := empty (trim line).

(** The extraction of the [double] from the trimmed line does not fail
    ([failbit] is not raised): the line is not blank, the field that
    the scan takes from its beginning is a complete literal, and its
    value is in range. A line such as "1.5ex", whose field "1.5e" is
    not complete, or "1e999", out of range, does not qualify. *)
Definition converts (line : str) : bool := negb (failbit (fst (parse line))).

(** The line is one floating-point token and nothing else: the parse
    succeeds and consumes the whole trimmed line. *)
Definition single_token (line : str) : option float :=
  let (s, v) := parse line in
  if negb (failbit s) && empty (buf s) then Some v else None.

(** A valid line: one token whose value is not negative. *)
Definition spec_valid (line : str) : option float :=
  match single_token line with
  | Some v => if (v <? 0)%float then None else Some v
  | None => None
  end.

(** The values of the valid lines, in order. *)
Definition spec_values (lines : list str) : list float :=
  flat_map (fun l => match spec_valid l with Some v => [v] | None => [] end) lines.

(** The extraction of the [double] from the trimmed line does not fail
    and leaves something other than whitespace in the stream. This is
    narrower than "a number followed by garbage": in "1.5ex" or
    "3.2e abc" the field scanned is "1.5e" or "3.2e", and the
    extraction fails. *)
Definition trailing_content (line : str) : bool :=
  let s := fst (parse line) in
  negb (failbit s) && existsb nonspace (buf s).

(** Loading the same file twice through one object: with [dispose] in
    between, as [main] does for each file, and then once more without
    it, when the object answers from its array. The three results are
    the pointer and [size] of each call. *)
Definition load_again (fs : filesystem) (filepath : str)
  : io ((option array * option Z) * (option array * option Z) *
        (option array * option Z)) :=
  ' (model1, data1, size1) <- getChargeData fs (init new_model filepath) None ;;
  ' (model2, data2, size2) <- getChargeData fs (init (dispose model1) filepath) None ;;
  ' (_, data3, size3) <- getChargeData fs model2 size2 ;;
  ret ((data1, size1), (data2, size2), (data3, size3)).

(** The sum of a sequence, accumulated from the left from zero. *)
Definition sum (xs : list float) : float :=
  fold_left (fun total x => (total + x)%float) xs 0%float.

(** The Dataset that the specification describes for a file: the values
    of its valid lines. *)
Definition spec_Dataset (content : str) : list float :=
  spec_values (all_lines content).

(** The default path of [ChargeDataModel::init]. *)
Definition millikan : str := lit "millikan.dat".

(** ** namespace Input *)

(** [std::tolower] in the "C" locale: the letters A to Z are moved to a
    to z, every other character stays. *)
Definition tolower (c : ascii) : ascii :=
  let n := nat_of_ascii c in
  if Nat.leb 65 n && Nat.leb n 90 then ascii_of_nat (n + 32) else c.

(** [std::equal(first1, last1, first2, pred)]: the pairs are compared
    until one fails; [None] when the second range ends before the
    first, where the algorithm would read past its end. *)
Fixpoint equal (pred : ascii -> ascii -> bool) (a b : str) : option bool :=
  match a, b with
  | [], _ => Some true
  | x :: a', y :: b' => if pred x y then equal pred a' b' else Some false
  | _ :: _, [] => None
  end.

(** [Input::icompare]. The lengths are compared first, so [std::equal]
    stays inside [b]. *)
Definition icompare (a b : str) : bool :=
  if negb (Nat.eqb (length a) (length b)) then false
  else
    match equal (fun x y => Ascii.eqb (tolower x) (tolower y)) a b with
    | Some r => r
    | None => false
    end.

(** What the dialogue with the user writes to [std::cout]. *)
Inductive prompt : Type :=
| Welcome                     (* "Welcome to Matt's impetuous charge calculator!" *)
| EnterFileName               (* "Please enter the name of the file you wish to load:" *)
| AnotherFile                 (* "Is there another file you'd like to load? [y/n]" *)
| NotValid (message : str).   (* "Sorry, the value you inputted was not valid." <message> *)

(** The line matches a string of the set ([std::find_if] does not
    return the end of the set). *)
Definition matches (set : list str) (line : str) : bool :=
  existsb (fun a => icompare a line) set.

(** The line matches neither set. *)
Definition unmatched (firstStringSet secondStringSet : list str) (line : str)
  : Prop :=
  matches firstStringSet line = false /\ matches secondStringSet line = false.

(** The loop of [Input::getBetweenTwoStringSetOptions] on [std::cin].
    [fuel] bounds the iterations ([None] when it runs out). When
    [getline] fails the loop ends and [response] is returned without
    ever having been assigned. *)
Fixpoint options_loop (fuel : nat) (message : str)
    (firstStringSet secondStringSet : list str)
    (cin : istream) (out : list prompt)
  : option (outcome Z * istream * list prompt) :=
  match fuel with
  | O => None
  | S fuel' =>
      let (cin1, line) := getline cin in
      if failbit cin1 then Some (Undefined, cin1, out)
      else if matches firstStringSet line then Some (Returned 1, cin1, out)
      else if matches secondStringSet line then Some (Returned (-1), cin1, out)
      else options_loop fuel' message firstStringSet secondStringSet cin1
                        (out ++ [NotValid message])
  end.

(** [Input::getBetweenTwoStringSetOptions]: every iteration but the
    last takes a newline from the input, so two more iterations than
    there are characters are enough. *)
Definition getBetweenTwoStringSetOptions (message : str)
    (firstStringSet secondStringSet : list str)
    (cin : istream) (out : list prompt)
  : outcome Z * istream * list prompt :=
  match options_loop (length (buf cin) + 2) message firstStringSet
                     secondStringSet cin out with
  | Some r => r
  | None => (Undefined, cin, out)
  end.

Definition validTrues : list str := [lit "yes"; lit "y"; lit "true"; lit "1"].
Definition validFalses : list str := [lit "no"; lit "n"; lit "false"; lit "0"].

(** The message of [getBool]; it ends in a newline. *)
Definition yay_or_nay : str := lit "Yay, or nay? [y/n]:" ++ [nl].

(** [Input::getBool]. *)
Definition getBool (cin : istream) (out : list prompt)
  : outcome bool * istream * list prompt :=
  match getBetweenTwoStringSetOptions yay_or_nay validTrues validFalses cin out with
  | (Returned r, cin1, out1) => (Returned (r =? 1), cin1, out1)
  | (Exited status, cin1, out1) => (Exited status, cin1, out1)
  | (Undefined, cin1, out1) => (Undefined, cin1, out1)
  end.

(** The do-while loop of [main] that asks for the files, by [fuel]. The
    name is pushed as [getline] leaves it, whether or not it could read
    one. *)
Fixpoint ask_loop (fuel : nat) (filesToLoad : list str)
    (cin : istream) (out : list prompt)
  : option (outcome (list str) * istream * list prompt) :=
  match fuel with
  | O => None
  | S fuel' =>
      let (cin1, temp) := getline cin in
      let filesToLoad1 := filesToLoad ++ [temp] in
      match getBool cin1 (out ++ [EnterFileName; AnotherFile]) with
      | (Returned true, cin2, out2) => ask_loop fuel' filesToLoad1 cin2 out2
      | (Returned false, cin2, out2) => Some (Returned filesToLoad1, cin2, out2)
      | (Exited status, cin2, out2) => Some (Exited status, cin2, out2)
      | (Undefined, cin2, out2) => Some (Undefined, cin2, out2)
      end
  end.

(** The first part of [main]: the welcome and the files asked for. *)
Definition ask_files (cin : istream)
  : outcome (list str) * istream * list prompt :=
  match ask_loop (length (buf cin) + 2) [] cin [Welcome] with
  | Some r => r
  | None => (Undefined, cin, [Welcome])
  end.

(** The whole of [main]: the dialogue, then the loop over the files. *)
Definition run (pow : float -> float -> float) (fs : filesystem) (cin : istream)
  : outcome Z * list prompt * list event :=
  match ask_files cin with
  | (Returned filesToLoad, _, asked) =>
      let (r, out) := main pow fs filesToLoad [] in (r, asked, out)
  | (Exited status, _, asked) => (Exited status, asked, [])
  | (Undefined, _, asked) => (Undefined, asked, [])
  end.

(** A dialogue as the user types it: each name followed by the answer
    to "another file?", every line ended by a newline. *)
Definition typed (lines : list (str * str)) : str :=
  flat_map (fun na => fst na ++ [nl] ++ snd na ++ [nl]) lines.

(** A name followed by yes. *)
Definition continues (na : str * str) : Prop :=
  no_nl (fst na) /\ no_nl (snd na) /\ matches validTrues (snd na) = true.

(** The states of a [ChargeDataModel] that its public functions reach:
    construction, [init], [dispose], and a [getChargeData] that
    returns. *)
Inductive reachable (fs : filesystem) : ChargeDataModel -> Prop :=
| reach_new : reachable fs new_model
| reach_init (this : ChargeDataModel) (filepath : str) :
    reachable fs this -> reachable fs (init this filepath)
| reach_dispose (this : ChargeDataModel) :
    reachable fs this -> reachable fs (dispose this)
| reach_getChargeData (this this1 : ChargeDataModel) (size size1 : option Z)
    (data : option array) (out out1 : list event) :
    reachable fs this ->
    getChargeData fs this size out = (Returned (this1, data, size1), out1) ->
    reachable fs this1.

(** All the characters are whitespace. *)
Definition allspace (s : str) : bool := forallb isspace s.

(** The string is empty, or neither begins nor ends with whitespace. *)
Definition trimmed (s : str) : Prop :=
  s = [] \/
  (exists c r, s = c :: r /\ isspace c = false) /\
  (exists r c, s = r ++ [c] /\ isspace c = false).

(** The reports among the messages of a run, by file. *)
Definition reported (out : list event) : list str :=
  flat_map (fun e => match e with Report file _ _ _ => [file] | _ => [] end) out.

(** * Properties *)

(** ** Lines *)

Lemma scan_line_terminated (l r : str) :
  no_nl l -> scan_line (l ++ nl :: r) = (l, Some r).
Proof.
  unfold no_nl. induction l as [|c l IH]; intros H; simpl.
  - reflexivity.
  - destruct (Ascii.eqb_spec c nl) as [->|_].
    + exfalso. apply H. now left.
    + rewrite IH; [reflexivity|]. intros Hin. apply H. now right.
Qed.

Lemma split_lines_sound (s : str) :
  s = file_of (fst (split_lines s)) (snd (split_lines s)) /\
  Forall no_nl (fst (split_lines s)) /\ no_nl (snd (split_lines s)) /\
  count_nl s = Z.of_nat (length (fst (split_lines s))).
Proof.
  unfold file_of, no_nl.
  induction s as [|c r (IHs & IHl & IHt & IHc)].
  - simpl. repeat split; auto.
  - cbn [split_lines count_nl].
    destruct (split_lines r) as [lines tail]; cbn [fst snd] in *.
    destruct (Ascii.eqb_spec c nl) as [->|Hc].
    + cbn [fst snd length]. split; [|split; [|split]].
      * change (nl :: r = nl :: (join lines ++ tail)). now f_equal.
      * now constructor.
      * assumption.
      * rewrite IHc. lia.
    + destruct lines as [|l lines']; cbn [fst snd length] in *.
      * split; [|split; [|split]].
        -- change (c :: r = c :: (join [] ++ tail)). now f_equal.
        -- constructor.
        -- intros [H|H]; [now subst|auto].
        -- rewrite IHc. lia.
      * apply Forall_cons_iff in IHl as [Hl Hls].
        split; [|split; [|split]].
        -- change (c :: r = c :: (join (l :: lines') ++ tail)). now f_equal.
        -- constructor; auto. intros [H|H]; [now apply Hc|auto].
        -- assumption.
        -- rewrite IHc. lia.
Qed.

Lemma split_lines_file_of (lines : list str) (tail : str) :
  Forall no_nl lines -> no_nl tail ->
  split_lines (file_of lines tail) = (lines, tail).
Proof.
  unfold file_of, no_nl. intros Hl Ht.
  induction Hl as [|l lines Hnl _ IH]; simpl.
  - induction tail as [|c t IHt]; simpl; [reflexivity|].
    rewrite IHt by (intros H; apply Ht; now right).
    destruct (Ascii.eqb_spec c nl) as [->|_]; [|reflexivity].
    exfalso. apply Ht. now left.
  - rewrite <- app_assoc. simpl.
    induction l as [|c l IHl]; simpl.
    + rewrite IH. reflexivity.
    + rewrite IHl by (intros H; apply Hnl; now right).
      destruct (Ascii.eqb_spec c nl) as [->|_]; [|reflexivity].
      exfalso. apply Hnl. now left.
Qed.

Lemma count_nl_file_of (lines : list str) (tail : str) :
  Forall no_nl lines -> no_nl tail ->
  count_nl (file_of lines tail) = Z.of_nat (length lines).
Proof.
  intros Hl Ht.
  pose proof (split_lines_sound (file_of lines tail)) as (_ & _ & _ & Hc).
  now rewrite Hc, split_lines_file_of.
Qed.

Lemma join_app (a b : list str) : join (a ++ b) = join a ++ join b.
Proof. unfold join. apply flat_map_app. Qed.

(** ** The array *)

Lemma place_nil (k : nat) (a : array) : place k [] a = a.
Proof. unfold place. simpl. rewrite Nat.add_0_r. apply firstn_skipn. Qed.

Lemma update_length (i : nat) (v : option float) (a : array) :
  length (update i v a) = length a.
Proof.
  revert i; induction a as [|x a IH]; intros [|i]; simpl; auto.
Qed.

Lemma place_update (k : nat) (v : float) (vs : list float) (a : array) :
  (k < length a)%nat ->
  place (S k) vs (update k (Some v) a) = place k (v :: vs) a.
Proof.
  unfold place. revert k. induction a as [|x a IH]; intros k Hk; simpl in Hk.
  - lia.
  - destruct k as [|k].
    + reflexivity.
    + specialize (IH k ltac:(lia)).
      cbn [update firstn app length map Nat.add skipn] in *.
      now rewrite IH.
Qed.

Lemma place_at_0 (vs : list float) (n : nat) :
  (length vs <= n)%nat ->
  place 0 vs (repeat None n) = map Some vs ++ repeat None (n - length vs).
Proof.
  intros H. unfold place. simpl. f_equal.
  replace n with (length vs + (n - length vs))%nat at 1 by lia.
  rewrite repeat_app, skipn_app, repeat_length, Nat.sub_diag, skipn_all2.
  - reflexivity.
  - rewrite repeat_length. lia.
Qed.

(** ** The loop of the loader *)

Lemma kept_length (lines : list str) :
  (length (kept lines) + length (filter rejected lines) = length lines)%nat.
Proof.
  unfold kept, rejected. induction lines as [|l lines IH]; simpl; [reflexivity|].
  destruct (validate l); simpl; rewrite ?length_app; simpl; lia.
Qed.

Lemma wrap32_small (z : Z) : 0 <= z < 2 ^ 32 -> wrap32 z = z.
Proof. intros H. unfold wrap32. now apply Z.mod_small. Qed.

Lemma wrap32_index (i maxSize finalSize : Z) :
  0 <= i - maxSize + finalSize < 2 ^ 32 ->
  wrap32 (wrap32 (i - maxSize) + finalSize) = i - maxSize + finalSize.
Proof.
  intros H. unfold wrap32.
  rewrite Z.add_mod_idemp_l by lia. now apply Z.mod_small.
Qed.

Lemma getline_terminated (l rest : str) :
  no_nl l ->
  getline (mkStream (l ++ nl :: rest) false false) = (mkStream rest false false, l).
Proof.
  intros H. unfold getline. cbn [good eofbit failbit negb andb buf].
  now rewrite scan_line_terminated.
Qed.

(** The loop over the lines it reads: the kept values go to consecutive
    cells, [finalSize] drops by one per rejected line, and a message is
    printed for each. *)
Lemma load_loop_lines (filepath : str) (maxSize : Z) :
  0 <= maxSize < 2 ^ 32 ->
  forall (lines : list str) (rest : str) (i : Z) (charges : array)
         (finalSize : Z) (out : list event),
  Forall no_nl lines ->
  0 <= i -> i + Z.of_nat (length lines) <= maxSize ->
  maxSize - i <= finalSize <= maxSize ->
  Z.of_nat (length charges) = maxSize ->
  load_loop filepath maxSize (length lines) i
            (mkStream (join lines ++ rest) false false) charges finalSize out
  = (Returned (mkStream rest false false,
               place (Z.to_nat (i - maxSize + finalSize)) (kept lines) charges,
               finalSize - Z.of_nat (length (filter rejected lines))),
     out ++ map (fun _ => CorruptDataPoint filepath) (filter rejected lines)).
Proof.
  intros Hmax lines. induction lines as [|l lines IH];
    intros rest i charges finalSize out Hnl Hi Hn Hf Hlen.
  - cbn. rewrite place_nil, Z.sub_0_r, app_nil_r. reflexivity.
  - apply Forall_cons_iff in Hnl as [Hl Hls].
    cbn [length] in Hn.
    cbn [length load_loop join flat_map]. rewrite <- !app_assoc.
    cbn [app]. rewrite getline_terminated by assumption.
    fold (join lines).
    unfold kept, rejected. cbn [flat_map filter]. fold (kept lines).
    destruct (validate l) as [v|] eqn:Hv.
    + unfold bind, store.
      rewrite wrap32_index by lia.
      destruct (Z.ltb_spec (i - maxSize + finalSize) (Z.of_nat (length charges)));
        [|lia].
      unfold ret at 1.
      rewrite IH; try assumption; try lia.
      2:{ rewrite update_length. assumption. }
      fold rejected. f_equal. f_equal. f_equal.
      replace (Z.to_nat (i + 1 - maxSize + finalSize))
        with (S (Z.to_nat (i - maxSize + finalSize))) by lia.
      cbn [app]. f_equal. apply place_update. lia.
    + unfold bind, print.
      rewrite wrap32_small by lia.
      rewrite IH; try assumption; try lia.
      fold rejected. cbn [length map]. rewrite <- app_assoc. cbn [app].
      replace (i + 1 - maxSize + (finalSize - 1)) with (i - maxSize + finalSize)
        by lia.
      replace (finalSize - 1 - Z.of_nat (length (filter rejected lines)))
        with (finalSize - Z.of_nat (S (length (filter rejected lines)))) by lia.
      reflexivity.
Qed.

(** ** The loader *)

Lemma determinate_map_Some (xs : list float) : determinate (map Some xs) = Some xs.
Proof. induction xs as [|x xs IH]; simpl; [reflexivity|now rewrite IH]. Qed.

Lemma Dataset_prefix (xs : list float) (junk : array) :
  Dataset (map Some xs ++ junk) (Z.of_nat (length xs)) = Some xs.
Proof.
  unfold Dataset. rewrite length_app, length_map, Nat2Z.id.
  destruct (Z.leb_spec 0 (Z.of_nat (length xs))); [|lia].
  destruct (Z.leb_spec (Z.of_nat (length xs)) (Z.of_nat (length xs + length junk)));
    [|lia].
  cbn [andb].
  rewrite firstn_app, length_map, Nat.sub_diag, firstn_O, app_nil_r.
  rewrite <- (length_map Some xs), firstn_all. apply determinate_map_Some.
Qed.

Lemma wrap32_range (z : Z) : 0 <= wrap32 z < 2 ^ 32.
Proof. unfold wrap32. apply Z.mod_pos_bound. lia. Qed.

Lemma wrap32_le (z : Z) : 0 <= z -> wrap32 z <= z.
Proof. intros H. unfold wrap32. apply Z.mod_le; lia. Qed.

Lemma lines_read_length (content : str) :
  length (lines_read content) = Z.to_nat (wrap32 (count_nl content)).
Proof.
  unfold lines_read, lines_nl.
  pose proof (split_lines_sound content) as (_ & _ & _ & Hc).
  apply firstn_length_le.
  pose proof (wrap32_le (count_nl content)). lia.
Qed.

Lemma lines_read_no_nl (content : str) : Forall no_nl (lines_read content).
Proof.
  unfold lines_read, lines_nl.
  pose proof (split_lines_sound content) as (_ & Hl & _).
  rewrite <- (firstn_skipn (Z.to_nat (wrap32 (count_nl content)))) in Hl.
  now apply Forall_app in Hl.
Qed.

(** What [loadDataFromFile] does on an object whose stream is closed,
    for a file that exists. *)
Lemma loadDataFromFile_opens (fs : filesystem) (this : ChargeDataModel)
    (content : str) (out : list event) :
  m_file this = None ->
  fs (m_filepath this) = Some content ->
  exists rest : str,
    loadDataFromFile fs this out
    = (Returned
         (mkModel (Some (mkFile content (mkStream rest false false)))
                  (m_filepath this)
                  (Some (map Some (kept (lines_read content)) ++
                         repeat None (length (filter rejected (lines_read content))))),
          Z.of_nat (length (kept (lines_read content)))),
       out ++ map (fun _ => CorruptDataPoint (m_filepath this))
                  (filter rejected (lines_read content))).
Proof.
  intros Hclosed Hfs.
  pose proof (split_lines_sound content) as (Hsplit & _ & _ & _).
  pose proof (lines_read_length content) as Hlen.
  pose proof (lines_read_no_nl content) as Hnl.
  pose proof (wrap32_range (count_nl content)) as Hrange.
  pose proof (kept_length (lines_read content)) as Hkept.
  set (maxSize := wrap32 (count_nl content)) in *.
  exists (join (skipn (Z.to_nat maxSize) (lines_nl content)) ++ snd (split_lines content)).
  unfold loadDataFromFile. rewrite Hclosed. unfold openFile. rewrite Hfs.
  cbn [m_file m_filepath getLineCount input contents good buf eofbit failbit
       negb andb].
  fold maxSize. unfold bind.
  replace (mkStream content false false)
    with (mkStream (join (lines_read content) ++
                    (join (skipn (Z.to_nat maxSize) (lines_nl content)) ++
                     snd (split_lines content))) false false).
  2:{ f_equal. rewrite app_assoc, <- join_app. unfold lines_read. fold maxSize.
      rewrite firstn_skipn. symmetry. exact Hsplit. }
  rewrite <- Hlen.
  rewrite load_loop_lines; try assumption; try lia.
  2:{ rewrite repeat_length. lia. }
  unfold ret.
  replace (Z.to_nat (0 - maxSize + maxSize)) with 0%nat by lia.
  rewrite place_at_0 by lia.
  replace (length (lines_read content) - length (kept (lines_read content)))%nat
    with (length (filter rejected (lines_read content))) by lia.
  replace (maxSize - Z.of_nat (length (filter rejected (lines_read content))))
    with (Z.of_nat (length (kept (lines_read content)))) by lia.
  reflexivity.
Qed.

(** ** Trimming *)

Lemma ltrim_suffix (s : str) : exists p, s = p ++ ltrim s.
Proof.
  induction s as [|c s [p IH]]; simpl.
  - now exists [].
  - destruct (isspace c).
    + exists (c :: p). simpl. now f_equal.
    + now exists [].
Qed.

Lemma ltrim_head (s : str) (c : ascii) (r : str) :
  ltrim s = c :: r -> isspace c = false.
Proof.
  induction s as [|d s IH]; simpl; [discriminate|].
  destruct (isspace d) eqn:Hd; [exact IH|].
  intros H. now inversion H; subst.
Qed.

Lemma ltrim_nonspace (s : str) :
  existsb nonspace s = true ->
  exists c r, ltrim s = c :: r /\ isspace c = false.
Proof.
  unfold nonspace. induction s as [|d s IH]; simpl; [discriminate|].
  destruct (isspace d) eqn:Hd; simpl.
  - exact IH.
  - intros _. now exists d, s.
Qed.

(** Whatever is left of a right-trimmed string ends in a character that
    is not whitespace. *)
Lemma rtrim_tail (s p r : str) :
  rtrim s = p ++ r -> r <> [] -> existsb nonspace r = true.
Proof.
  unfold rtrim. intros H Hr.
  destruct (ltrim (rev s)) as [|d y] eqn:Hy.
  - simpl in H. symmetry in H. apply app_eq_nil in H as [_ H]. contradiction.
  - apply ltrim_head in Hy.
    destruct (exists_last Hr) as (r' & a & ->).
    simpl in H. rewrite app_assoc in H. apply app_inj_tail in H as [_ <-].
    rewrite existsb_app. simpl. unfold nonspace. rewrite Hy. simpl.
    apply orb_true_r.
Qed.

(** ** Extraction *)

Lemma scan_sign_suffix (s : str) : exists p, s = p ++ snd (scan_sign s).
Proof.
  destruct s as [|c r]; simpl; [now exists []|].
  destruct (Ascii.eqb c "+"); [now exists [c]|].
  destruct (Ascii.eqb c "-"); [now exists [c]|now exists []].
Qed.

Lemma scan_digits_suffix (s : str) : exists p, s = p ++ snd (scan_digits s).
Proof.
  induction s as [|c r [p IH]]; simpl; [now exists []|].
  destruct (is_digit c); [|now exists []].
  destruct (scan_digits r) as [d r']. simpl in *. exists (c :: p).
  simpl. now f_equal.
Qed.

Lemma scan_float_suffix (s : str) : exists p, s = p ++ snd (scan_float s).
Proof.
  unfold scan_float.
  destruct (scan_sign_suffix s) as [p0 H0].
  destruct (scan_sign s) as [sg r0]. simpl in H0.
  destruct (scan_digits_suffix r0) as [p1 H1].
  destruct (scan_digits r0) as [ip r1]. simpl in H1.
  assert (exists p2,
    r1 = p2 ++ snd (match r1 with
                    | c :: r =>
                        if Ascii.eqb c "." then
                          let (fp, r') := scan_digits r in (true, fp, r')
                        else (false, [], r1)
                    | [] => (false, [], r1)
                    end)) as [p2 H2].
  { destruct r1 as [|c r]; [now exists []|].
    destruct (Ascii.eqb c "."); [|now exists []].
    destruct (scan_digits_suffix r) as [q Hq].
    destruct (scan_digits r) as [fp r']. simpl in *.
    exists (c :: q). simpl. now f_equal. }
  destruct (match r1 with
            | c :: r =>
                if Ascii.eqb c "." then
                  let (fp, r') := scan_digits r in (true, fp, r')
                else (false, [], r1)
            | [] => (false, [], r1)
            end) as [[pt fp] r2]. simpl in H2.
  set (found := negb (empty ip) || negb (empty fp)).
  assert (exists p3,
    r2 = p3 ++ snd (match r2 with
                    | c :: r =>
                        if (Ascii.eqb c "e" || Ascii.eqb c "E") && found then
                          let (esg, r') := scan_sign r in
                          let (ed, r'') := scan_digits r' in
                          (Some (esg, ed), r'')
                        else (None, r2)
                    | [] => (None, r2)
                    end)) as [p3 H3].
  { destruct r2 as [|c r]; [now exists []|].
    destruct ((Ascii.eqb c "e" || Ascii.eqb c "E") && found); [|now exists []].
    destruct (scan_sign_suffix r) as [q Hq].
    destruct (scan_sign r) as [esg r']. simpl in Hq.
    destruct (scan_digits_suffix r') as [q' Hq'].
    destruct (scan_digits r') as [ed r'']. simpl in *.
    exists (c :: q ++ q'). simpl. f_equal. rewrite <- app_assoc.
    now rewrite <- Hq'. }
  destruct (match r2 with
            | c :: r =>
                if (Ascii.eqb c "e" || Ascii.eqb c "E") && found then
                  let (esg, r') := scan_sign r in
                  let (ed, r'') := scan_digits r' in
                  (Some (esg, ed), r'')
                else (None, r2)
            | [] => (None, r2)
            end) as [ex r3]. simpl in *.
  exists (p0 ++ p1 ++ p2 ++ p3).
  rewrite <- !app_assoc. now rewrite <- H3, <- H2, <- H1.
Qed.

(** The two ways the extraction of the [double] can go: the trimmed
    line is empty and nothing is stored, or a field is scanned and
    converted. *)
Lemma parse_cases (l : str) :
  (blank l = true /\ parse l = (mkStream [] true true, (-1)%float)) \/
  (blank l = false /\
   exists f rest v err,
     scan_float (ltrim (trim l)) = (f, rest) /\ convert f = (v, err) /\
     parse l = (mkStream rest (empty rest) err, v) /\
     (rest <> [] -> existsb nonspace rest = true)).
Proof.
  unfold blank, parse, extract_double, sentry, stringstream.
  cbn [good eofbit failbit negb andb buf].
  destruct (trim l) as [|c t] eqn:Ht.
  - left. split; reflexivity.
  - right. split; [reflexivity|].
    destruct (ltrim (c :: t)) as [|c' t'] eqn:Hlt.
    + assert (existsb nonspace (c :: t) = true) as Hx.
      { unfold trim in Ht. apply (rtrim_tail (ltrim l) []); [exact Ht|discriminate]. }
      apply ltrim_nonspace in Hx as (? & ? & Hx & _). congruence.
    + cbn [buf].
      destruct (scan_float (c' :: t')) as [f rest] eqn:Hscan.
      destruct (convert f) as [v err] eqn:Hconv.
      exists f, rest, v, err. repeat split; auto.
      intros Hrest.
      destruct (scan_float_suffix (c' :: t')) as [p Hp].
      rewrite Hscan in Hp. simpl in Hp.
      destruct (ltrim_suffix (c :: t)) as [q Hq].
      rewrite Hlt, Hp in Hq.
      unfold trim in Ht. rewrite Hq in Ht. rewrite app_assoc in Ht.
      eapply rtrim_tail; eassumption.
Qed.

Lemma scan_word_head (c : ascii) (r : str) :
  isspace c = false -> empty (fst (scan_word (c :: r))) = false.
Proof.
  intros H. simpl. rewrite H. now destruct (scan_word r).
Qed.

Lemma extract_string_word (rest : str) (w : str) :
  existsb nonspace rest = true ->
  empty (snd (extract_string (mkStream rest false false) w)) = false.
Proof.
  intros H. apply ltrim_nonspace in H as (c & r & H & Hc).
  unfold extract_string, sentry. cbn [good eofbit failbit negb andb buf].
  rewrite H. cbn [buf].
  pose proof (scan_word_head c r Hc) as Hw.
  destruct (scan_word (c :: r)) as [w' r']. exact Hw.
Qed.

Lemma extract_string_refused (s : istream) (w : str) :
  good s = false -> snd (extract_string s w) = w.
Proof.
  intros H. unfold extract_string, sentry. now rewrite H.
Qed.

(** ** Validation of a line *)

Lemma validate_parse (l : str) :
  validate l =
  if (snd (parse l) <? 0)%float ||
     negb (empty (snd (extract_string (fst (parse l)) [])))
  then None else Some (snd (parse l)).
Proof.
  unfold validate, parse.
  destruct (extract_double (stringstream (trim l)) (-1)%float) as [s v].
  cbn [fst snd]. now destruct (extract_string s []) as [s' e].
Qed.

(** A line that is all whitespace is rejected. *)
Lemma validate_blank (l : str) : blank l = true -> validate l = None.
Proof.
  intros H. rewrite validate_parse.
  destruct (parse_cases l) as [[_ ->]|[Hb _]]; [reflexivity|congruence].
Qed.

(** A line whose extracted value is negative is rejected. *)
Lemma validate_negative (l : str) :
  (snd (parse l) <? 0)%float = true -> validate l = None.
Proof. intros H. rewrite validate_parse, H. reflexivity. Qed.

(** When the extraction of the [double] does not fail and leaves
    something other than whitespace, the line is rejected. *)
Lemma validate_trailing (l : str) : trailing_content l = true -> validate l = None.
Proof.
  unfold trailing_content. intros H. apply andb_prop in H as [Hf Hx].
  rewrite validate_parse.
  destruct (parse_cases l) as [[_ Hp]|(_ & f & rest & v & err & _ & _ & Hp & _)];
    rewrite Hp in *; cbn [fst snd failbit buf] in *; [discriminate|].
  apply negb_true_iff in Hf. subst err.
  destruct rest as [|c r]; [discriminate|].
  cbn [empty]. rewrite extract_string_word by assumption.
  cbn [negb]. now rewrite orb_true_r.
Qed.

(** A line that is not blank and whose leading field is not a complete
    literal is kept, with the value zero: the failed extraction has
    stored zero over the -1.0 the variable started with, and the stream
    refuses the extraction of [emptyTest]. *)
Lemma validate_incomplete_field (l : str) :
  blank l = false ->
  field_ok (fst (scan_float (ltrim (trim l)))) = false ->
  validate l = Some 0%float.
Proof.
  intros Hb Hf. rewrite validate_parse.
  destruct (parse_cases l) as [[Hb' _]|(_ & f & rest & v & err & Hs & Hc & Hp & _)];
    [congruence|].
  rewrite Hs in Hf. cbn [fst] in Hf.
  unfold convert in Hc. rewrite Hf in Hc. inversion Hc; subst v err.
  rewrite Hp. cbn [fst snd].
  rewrite extract_string_refused.
  - reflexivity.
  - unfold good. cbn [failbit negb]. apply andb_false_r.
Qed.

(** Where the extraction does not fail, or the line is blank, the
    loader's validation is the specification's. *)
Lemma validate_spec_valid (l : str) :
  blank l || converts l = true -> validate l = spec_valid l.
Proof.
  unfold converts, spec_valid, single_token. intros H.
  rewrite validate_parse.
  destruct (parse_cases l) as [[_ Hp]|(Hb & f & rest & v & err & _ & _ & Hp & Hrest)];
    rewrite Hp in *; cbn [fst snd failbit buf] in *; [reflexivity|].
  rewrite Hb in H. cbn [orb] in H. apply negb_true_iff in H. subst err.
  cbn [negb andb].
  destruct rest as [|c r].
  - cbn [empty]. rewrite extract_string_refused by reflexivity.
    cbn [empty negb]. rewrite orb_false_r. reflexivity.
  - cbn [empty]. rewrite extract_string_word by (apply Hrest; discriminate).
    cbn [negb]. rewrite orb_true_r. reflexivity.
Qed.

(** ** Loading a file *)

Lemma loadDataFromFile_missing (fs : filesystem) (this : ChargeDataModel)
    (out : list event) :
  m_file this = None ->
  fs (m_filepath this) = None ->
  loadDataFromFile fs this out
  = (Exited 0, out ++ [CouldNotOpen (m_filepath this)]).
Proof.
  intros Hclosed Hfs. unfold loadDataFromFile. rewrite Hclosed.
  unfold openFile. rewrite Hfs. reflexivity.
Qed.

(** [getChargeData] on an object that holds no data and no open stream,
    for a file that exists. *)
Lemma getChargeData_loads (fs : filesystem) (this : ChargeDataModel)
    (content : str) (size : option Z) (out : list event) :
  m_file this = None -> m_charges this = None ->
  fs (m_filepath this) = Some content ->
  exists (model : ChargeDataModel),
    m_filepath model = m_filepath this /\
    getChargeData fs this size out
    = (Returned
         (model,
          Some (map Some (kept (lines_read content)) ++
                repeat None (length (filter rejected (lines_read content)))),
          Some (Z.of_nat (length (kept (lines_read content))))),
       out ++ map (fun _ => CorruptDataPoint (m_filepath this))
                  (filter rejected (lines_read content))) /\
    m_charges model
    = Some (map Some (kept (lines_read content)) ++
            repeat None (length (filter rejected (lines_read content)))).
Proof.
  intros Hfile Hcharges Hfs.
  destruct (loadDataFromFile_opens fs this content out Hfile Hfs) as [rest Hload].
  eexists. split; [|split].
  2:{ unfold getChargeData. rewrite Hcharges. unfold bind. rewrite Hload.
      reflexivity. }
  all: reflexivity.
Qed.

Lemma load_existing (fs : filesystem) (p content : str) (out : list event) :
  fs p = Some content ->
  load fs p out
  = (Returned (kept (lines_read content),
               Z.of_nat (length (kept (lines_read content)))),
     out ++ map (fun _ => CorruptDataPoint p)
                (filter rejected (lines_read content))).
Proof.
  intros Hfs. unfold load.
  destruct (getChargeData_loads fs (init new_model p) content None out)
    as (model & _ & Hget & _); try reflexivity; try assumption.
  unfold bind at 1. rewrite Hget. cbn [init m_filepath].
  rewrite Dataset_prefix. reflexivity.
Qed.

Lemma load_missing (fs : filesystem) (p : str) (out : list event) :
  fs p = None -> load fs p out = (Exited 0, out ++ [CouldNotOpen p]).
Proof.
  intros Hfs. unfold load, getChargeData. cbn [init new_model m_charges].
  unfold bind.
  rewrite loadDataFromFile_missing by (try reflexivity; assumption).
  reflexivity.
Qed.

Lemma lines_read_file_of (lines : list str) (tail : str) :
  Forall no_nl lines -> no_nl tail ->
  lines_read (file_of lines tail)
  = firstn (Z.to_nat (wrap32 (Z.of_nat (length lines)))) lines.
Proof.
  intros Hl Ht. unfold lines_read, lines_nl.
  now rewrite count_nl_file_of, split_lines_file_of.
Qed.

Lemma lines_read_all (lines : list str) (tail : str) :
  Forall no_nl lines -> no_nl tail -> Z.of_nat (length lines) < 2 ^ 32 ->
  lines_read (file_of lines tail) = lines.
Proof.
  intros Hl Ht Hn. rewrite lines_read_file_of by assumption.
  rewrite wrap32_small by lia. rewrite Nat2Z.id. apply firstn_all.
Qed.

Lemma lines_read_small (content : str) :
  count_nl content < 2 ^ 32 -> lines_read content = lines_nl content.
Proof.
  intros Hn. unfold lines_read, lines_nl.
  pose proof (split_lines_sound content) as (_ & _ & _ & Hc).
  rewrite wrap32_small by lia. rewrite Hc, Nat2Z.id. apply firstn_all.
Qed.

Lemma kept_app (a b : list str) : kept (a ++ b) = kept a ++ kept b.
Proof. unfold kept. apply flat_map_app. Qed.

Lemma kept_rejected (l : str) (lines : list str) :
  validate l = None -> kept (l :: lines) = kept lines.
Proof. intros H. unfold kept. cbn [flat_map]. now rewrite H. Qed.

Lemma kept_spec_values (lines : list str) :
  Forall (fun l => blank l || converts l = true) lines ->
  kept lines = spec_values lines.
Proof.
  unfold kept, spec_values. induction 1 as [|l lines Hl _ IH]; [reflexivity|].
  cbn [flat_map]. now rewrite IH, validate_spec_valid.
Qed.

(** * The properties of the specification *)

(** C1 (not met by the code). Specified: a line without a parseable
    floating-point token is rejected, so that the file
    "1.0\nfoo\n3.0\n" loads as [1.0, 3.0]. The code: the failed
    extraction stores zero in [possibleCharge], the stream refuses the
    second extraction, and the line "foo" is kept as 0.0; the file loads
    as [1.0, 0.0, 3.0] with size 3 and no message. (Blank lines are
    rejected: [validate_blank].) *)
Theorem C1_unparseable_line_is_kept_as_zero :
  validate (lit "foo") = Some 0%float /\
  load (one_file millikan (file_of [lit "1.0"; lit "foo"; lit "3.0"] []))
       millikan []
  = (Returned ([1; 0; 3]%float, 3), []).
Proof. split; vm_compute; reflexivity. Qed.

(** C2 does not hold as written: in the file "1.0\n2.0" both lines are
    valid, and the loader returns only the first. *)
Lemma C2_unterminated_line_is_not_loaded :
  spec_Dataset (file_of [lit "1.0"] (lit "2.0")) = [1; 2]%float /\
  fst (load (one_file millikan (file_of [lit "1.0"] (lit "2.0"))) millikan [])
  = Returned ([1]%float, 1) /\
  fst (load (one_file millikan (file_of [lit "1.0"] (lit "2.0"))) millikan [])
  <> Returned (spec_Dataset (file_of [lit "1.0"] (lit "2.0")),
               Z.of_nat (length (spec_Dataset (file_of [lit "1.0"] (lit "2.0"))))).
Proof.
  split; [|split].
  - vm_compute. reflexivity.
  - vm_compute. reflexivity.
  - vm_compute. intros H. discriminate H.
Qed.

(** C2, amended. For every file with fewer than 2^32 newlines in which,
    for each newline-terminated line, the line is blank or the
    extraction of the double from the trimmed line does not fail, the
    Dataset is exactly the values of the valid lines among the
    newline-terminated lines, in file order, in the cells 0 to
    size - 1 of the array, and the size returned is their number. *)
Theorem C2_dataset_is_the_valid_terminated_lines
    (fs : filesystem) (p content : str) (out : list event) :
  fs p = Some content ->
  count_nl content < 2 ^ 32 ->
  Forall (fun l => blank l || converts l = true) (lines_nl content) ->
  fst (load fs p out)
  = Returned (spec_values (lines_nl content),
              Z.of_nat (length (spec_values (lines_nl content)))) /\
  exists (model : ChargeDataModel) (junk : array),
    fst (getChargeData fs (init new_model p) None out)
    = Returned (model,
                Some (map Some (spec_values (lines_nl content)) ++ junk),
                Some (Z.of_nat (length (spec_values (lines_nl content))))).
Proof.
  intros Hfs Hcount Hclean.
  rewrite <- kept_spec_values by assumption.
  rewrite <- lines_read_small by assumption.
  split.
  - now rewrite (load_existing fs p content).
  - destruct (getChargeData_loads fs (init new_model p) content None out)
      as (model & _ & Hget & _); try reflexivity; try assumption.
    exists model. eexists. rewrite Hget. reflexivity.
Qed.

Lemma C2_three_valid_lines :
  one_file millikan (file_of [lit "1.0"; lit "2.0"; lit "3.0"] []) millikan
  = Some (file_of [lit "1.0"; lit "2.0"; lit "3.0"] []) /\
  fst (load (one_file millikan (file_of [lit "1.0"; lit "2.0"; lit "3.0"] []))
            millikan [])
  = Returned ([1; 2; 3]%float, 3).
Proof.
  split; [reflexivity|].
  refine (proj1 (C2_dataset_is_the_valid_terminated_lines
                   (one_file millikan (file_of [lit "1.0"; lit "2.0"; lit "3.0"] []))
                   millikan (file_of [lit "1.0"; lit "2.0"; lit "3.0"] []) []
                   _ _ _)).
  - reflexivity.
  - reflexivity.
  - repeat (constructor; [vm_compute; reflexivity|]). constructor.
Defined.

(** C7. A line that parses, once trimmed, as one floating-point token
    with a negative value is rejected, and wherever it stands in a file
    the Dataset is made of what the other lines give. *)
Theorem C7_negative_line_is_excluded (l : str) (v : float) :
  single_token l = Some v ->
  (v <? 0)%float = true ->
  validate l = None /\
  forall (fs : filesystem) (p : str) (before after : list str) (tail : str)
         (out : list event),
    Forall no_nl (before ++ l :: after) -> no_nl tail ->
    Z.of_nat (length (before ++ l :: after)) < 2 ^ 32 ->
    fs p = Some (file_of (before ++ l :: after) tail) ->
    fst (load fs p out)
    = Returned (kept before ++ kept after,
                Z.of_nat (length (kept before ++ kept after))).
Proof.
  intros Htoken Hneg.
  assert (validate l = None) as Hrej.
  { apply validate_negative. unfold single_token in Htoken.
    destruct (parse l) as [s v']. cbn [snd].
    destruct (negb (failbit s) && empty (buf s)); [|discriminate].
    now inversion Htoken; subst. }
  split; [exact Hrej|].
  intros fs p before after tail out Hnl Ht Hlen Hfs.
  rewrite (load_existing fs p _ out Hfs). cbn [fst].
  rewrite lines_read_all by assumption.
  now rewrite kept_app, (kept_rejected l after Hrej).
Qed.

Lemma C7_minus_one_then_two :
  single_token (lit "-1.0") = Some (-1)%float /\
  ((-1) <? 0)%float = true /\
  fst (load (one_file millikan (file_of [lit "-1.0"; lit "2.0"] [])) millikan [])
  = Returned ([2]%float, 1).
Proof.
  split; [vm_compute; reflexivity|]. split; [reflexivity|].
  refine (proj2 (C7_negative_line_is_excluded (lit "-1.0") (-1)%float _ _)
                (one_file millikan (file_of [lit "-1.0"; lit "2.0"] []))
                millikan [] [lit "2.0"] [] [] _ _ _ _).
  - vm_compute. reflexivity.
  - reflexivity.
  - repeat (constructor; [vm_compute; intuition discriminate|]). constructor.
  - intros H. exact H.
  - reflexivity.
  - reflexivity.
Defined.

Lemma kept_without (skip : str -> bool) (lines : list str) :
  (forall l, skip l = true -> validate l = None) ->
  kept lines = kept (filter (fun l => negb (skip l)) lines).
Proof.
  intros Hskip. induction lines as [|l lines IH]; [reflexivity|].
  cbn [filter]. destruct (skip l) eqn:Hl; cbn [negb].
  - now rewrite kept_rejected by auto.
  - unfold kept in *. cbn [flat_map]. now rewrite IH.
Qed.

Lemma filter_length_le {A} (f g : A -> bool) (xs : list A) :
  (forall x, f x = true -> g x = true) ->
  (length (filter f xs) <= length (filter g xs))%nat.
Proof.
  intros Hfg. induction xs as [|x xs IH]; [reflexivity|].
  cbn [filter]. destruct (f x) eqn:Hf.
  - rewrite (Hfg x Hf). cbn [length]. lia.
  - destruct (g x); cbn [length]; lia.
Qed.

Lemma rejected_only_trailing (lines : list str) :
  Forall (fun l => trailing_content l = false -> validate l <> None) lines ->
  length (filter rejected lines) = length (filter trailing_content lines).
Proof.
  induction 1 as [|l lines Hl _ IH]; [reflexivity|].
  cbn [filter]. unfold rejected at 1.
  destruct (trailing_content l) eqn:Ht.
  - rewrite validate_trailing by assumption. cbn [length]. now rewrite IH.
  - destruct (validate l); [exact IH|]. now exfalso; apply Hl.
Qed.

(** X26. In a file, the lines for which the extraction of the double
    does not fail and leaves something other than whitespace are excluded:
    the Dataset is that of the file without them. Each of them makes
    the size fall below the number of lines by one: the size is at most
    the number of lines less the number of such lines, and is exactly
    that when the other lines are all kept. *)
Lemma trailing_content_is_excluded
    (fs : filesystem) (p : str) (lines : list str) (tail : str)
    (out : list event) :
  Forall no_nl lines -> no_nl tail ->
  Z.of_nat (length lines) < 2 ^ 32 ->
  fs p = Some (file_of lines tail) ->
  (forall l, trailing_content l = true -> validate l = None) /\
  exists size : Z,
    fst (load fs p out)
    = Returned (kept (filter (fun l => negb (trailing_content l)) lines), size) /\
    size <= Z.of_nat (length lines)
            - Z.of_nat (length (filter trailing_content lines)) /\
    (Forall (fun l => trailing_content l = false -> validate l <> None) lines ->
     size = Z.of_nat (length lines)
            - Z.of_nat (length (filter trailing_content lines))).
Proof.
  intros Hnl Ht Hlen Hfs. split; [exact validate_trailing|].
  exists (Z.of_nat (length (kept lines))).
  rewrite (load_existing fs p _ out Hfs). cbn [fst].
  rewrite lines_read_all by assumption.
  pose proof (kept_length lines) as Hk.
  split; [|split].
  - now rewrite <- (kept_without trailing_content lines validate_trailing).
  - assert (length (filter trailing_content lines)
            <= length (filter rejected lines))%nat.
    { apply filter_length_le. intros l Hl. unfold rejected.
      now rewrite validate_trailing. }
    lia.
  - intros Hothers. rewrite <- (rejected_only_trailing lines Hothers). lia.
Qed.

Lemma one_line_with_trailing_content :
  one_file millikan (file_of [lit "3.2 abc"; lit "4.5"] []) millikan
  = Some (file_of [lit "3.2 abc"; lit "4.5"] []) /\
  trailing_content (lit "3.2 abc") = true /\
  exists size : Z,
    fst (load (one_file millikan (file_of [lit "3.2 abc"; lit "4.5"] []))
              millikan [])
    = Returned ([4.5]%float, size) /\
    size = 2 - 1.
Proof.
  split; [reflexivity|]. split; [vm_compute; reflexivity|].
  destruct (trailing_content_is_excluded
              (one_file millikan (file_of [lit "3.2 abc"; lit "4.5"] []))
              millikan [lit "3.2 abc"; lit "4.5"] [] [])
    as (_ & size & Hload & _ & Hsize).
  - repeat (constructor; [vm_compute; intuition discriminate|]). constructor.
  - intros H. exact H.
  - reflexivity.
  - reflexivity.
  - exists size. split.
    + rewrite Hload. vm_compute. reflexivity.
    + rewrite Hsize; [reflexivity|].
      repeat (constructor; [vm_compute; intuition discriminate|]). constructor.
Defined.

(** C8 (not met by the code). Specified: a line that begins with a
    number and has other content after it is excluded, and the size is
    one less per such line than the number of lines. The code: when the
    characters after the number can still continue a literal, the field
    scanned is not a complete literal ("2.5e" in "2.5eV", "3.2e" in
    "3.2e abc"); the failed extraction stores zero, the extraction of
    [emptyTest] is refused, and the line is kept as 0.0. The file
    "2.5eV\n4.5\n" loads as [0.0, 4.5] with size 2, the number of its
    lines, and no message. It is the defect of C1. (Where the
    extraction does not fail the line is excluded:
    [trailing_content_is_excluded].) *)
Theorem C8_number_followed_by_garbage_is_kept_as_zero :
  validate (lit "2.5eV") = Some 0%float /\
  validate (lit "3.2e abc") = Some 0%float /\
  load (one_file millikan (file_of [lit "2.5eV"; lit "4.5"] [])) millikan []
  = (Returned ([0; 4.5]%float, 2), []).
Proof. repeat split; vm_compute; reflexivity. Qed.

(** C10. What follows the last newline of a file is ignored: the file
    loads exactly as the file without it does, with the same Dataset,
    the same size and the same messages; a file with no newline at all
    gives a Dataset of size 0 and no message. *)
Theorem C10_unterminated_last_line_is_ignored
    (fs fs' : filesystem) (p : str) (lines : list str) (tail : str)
    (out : list event) :
  Forall no_nl lines -> no_nl tail ->
  fs p = Some (file_of lines tail) ->
  fs' p = Some (file_of lines []) ->
  load fs p out = load fs' p out /\
  (lines = [] -> load fs p out = (Returned ([], 0), out)).
Proof.
  intros Hnl Ht Hfs Hfs'.
  rewrite (load_existing fs p _ out Hfs), (load_existing fs' p _ out Hfs').
  rewrite !lines_read_file_of; try assumption.
  2:{ intros H. exact H. }
  split; [reflexivity|].
  intros ->. cbn. now rewrite app_nil_r.
Qed.

Lemma C10_file_without_newline :
  no_nl (lit "5.0") /\
  load (one_file millikan (lit "5.0")) millikan [] = (Returned ([], 0), []) /\
  load (one_file millikan (file_of [lit "1.0"] (lit "2.0"))) millikan []
  = load (one_file millikan (file_of [lit "1.0"] [])) millikan [].
Proof.
  assert (no_nl (lit "5.0")) as H5 by (vm_compute; intuition discriminate).
  assert (no_nl (lit "2.0")) as H2 by (vm_compute; intuition discriminate).
  split; [exact H5|]. split.
  - refine (proj2 (C10_unterminated_last_line_is_ignored
                     (one_file millikan (lit "5.0")) (one_file millikan [])
                     millikan [] (lit "5.0") [] _ H5 _ _) _);
      try reflexivity. constructor.
  - refine (proj1 (C10_unterminated_last_line_is_ignored
                     (one_file millikan (file_of [lit "1.0"] (lit "2.0")))
                     (one_file millikan (file_of [lit "1.0"] []))
                     millikan [lit "1.0"] (lit "2.0") [] _ H2 _ _));
      try reflexivity.
    repeat (constructor; [vm_compute; intuition discriminate|]). constructor.
Defined.

(** ** The statistics *)

Lemma determinate_cells (cells : array) (xs : list float) :
  determinate cells = Some xs -> cells = map Some xs.
Proof.
  revert xs. induction cells as [|[x|] cells IH]; intros xs; simpl.
  - intros H. now inversion H.
  - destruct (determinate cells) as [ys|]; [|discriminate].
    intros H. inversion H; subst. simpl. now rewrite (IH ys).
  - discriminate.
Qed.

Lemma Dataset_cells (data : array) (size : Z) (xs : list float) :
  Dataset data size = Some xs ->
  size = Z.of_nat (length xs) /\ firstn (length xs) data = map Some xs.
Proof.
  unfold Dataset.
  destruct (Z.leb_spec 0 size) as [H0|_]; [|discriminate].
  destruct (Z.leb_spec size (Z.of_nat (length data))) as [Hle|_]; [|discriminate].
  cbn [andb]. intros H. apply determinate_cells in H.
  assert (length xs = Z.to_nat size) as Hlen.
  { rewrite <- (length_map Some xs), <- H. apply firstn_length_le. lia. }
  split; [lia|]. now rewrite Hlen.
Qed.

Lemma Dataset_read (data : array) (size : Z) (xs : list float) :
  Dataset data size = Some xs ->
  forall (k : nat) (x : float),
    nth_error xs k = Some x -> read data (Z.of_nat k) = Some x.
Proof.
  intros H k x Hk. apply Dataset_cells in H as [_ H].
  assert (k < length xs)%nat as Hlt by (apply nth_error_Some; congruence).
  unfold read. rewrite Nat2Z.id.
  pose proof (nth_error_firstn (length xs) data k) as Hn.
  apply Nat.ltb_lt in Hlt. rewrite Hlt in Hn. rewrite <- Hn, H.
  now rewrite (map_nth_error Some k xs Hk).
Qed.

Lemma mean_loop_sum (data : array) (ys : list float) :
  forall (i : Z) (total : float),
  0 <= i ->
  (forall (k : nat) (x : float),
     nth_error ys k = Some x -> read data (i + Z.of_nat k) = Some x) ->
  mean_loop data (length ys) i total
  = Some (fold_left (fun t x => (t + x)%float) ys total).
Proof.
  induction ys as [|y ys IH]; intros i total Hi Hread; [reflexivity|].
  cbn [length mean_loop fold_left].
  pose proof (Hread 0%nat y eq_refl) as H0.
  change (Z.of_nat 0) with 0 in H0. rewrite Z.add_0_r in H0. rewrite H0.
  apply IH; [lia|]. intros k x Hk.
  replace (i + 1 + Z.of_nat k) with (i + Z.of_nat (S k)) by lia.
  now apply Hread.
Qed.

Lemma deviation_loop_sum (pow : float -> float -> float) (data : array)
    (mean : float) (ys : list float) :
  forall (i : Z) (total : float),
  0 <= i ->
  (forall (k : nat) (x : float),
     nth_error ys k = Some x -> read data (i + Z.of_nat k) = Some x) ->
  deviation_loop pow data mean (length ys) i total
  = Some (fold_left (fun t x => (t + x)%float)
                    (map (fun x => pow (x - mean)%float 2%float) ys) total).
Proof.
  induction ys as [|y ys IH]; intros i total Hi Hread; [reflexivity|].
  cbn [length deviation_loop fold_left map].
  pose proof (Hread 0%nat y eq_refl) as H0.
  change (Z.of_nat 0) with 0 in H0. rewrite Z.add_0_r in H0. rewrite H0.
  apply IH; [lia|]. intros k x Hk.
  replace (i + 1 + Z.of_nat k) with (i + Z.of_nat (S k)) by lia.
  now apply Hread.
Qed.

Lemma computeMean_Dataset (data : array) (size : Z) (xs : list float) :
  Dataset data size = Some xs ->
  computeMean data size = Some (sum xs / double_of_uint size)%float.
Proof.
  intros H. pose proof (Dataset_cells _ _ _ H) as [Hsize _].
  unfold computeMean, sum. rewrite Hsize at 1. rewrite Nat2Z.id.
  rewrite mean_loop_sum; [reflexivity|lia|].
  intros k x Hk. now apply (Dataset_read data size xs).
Qed.

Lemma computeStandardDeviation_Dataset (pow : float -> float -> float)
    (data : array) (size : Z) (xs : list float) (mean : float) :
  Dataset data size = Some xs ->
  computeStandardDeviation pow data size mean
  = Some (PrimFloat.sqrt
            (sum (map (fun x => pow (x - mean)%float 2%float) xs)
             / double_of_uint (wrap32 (size - 1))))%float.
Proof.
  intros H. pose proof (Dataset_cells _ _ _ H) as [Hsize _].
  unfold computeStandardDeviation, sum. rewrite Hsize at 1. rewrite Nat2Z.id.
  rewrite deviation_loop_sum; [reflexivity|lia|].
  intros k x Hk. now apply (Dataset_read data size xs).
Qed.

(** C3. The standard error of the mean is the mean divided by the square
    root of the count, whatever the count; for mean 2.0 and count 3 it
    is 2.0 / sqrt(3). *)
Theorem C3_standard_error_is_mean_over_sqrt_count (mean : float) (size : Z) :
  computeStandardErrorInTheMean mean size
  = (mean / PrimFloat.sqrt (double_of_uint size))%float /\
  computeStandardErrorInTheMean 2 3 = (2 / PrimFloat.sqrt 3)%float.
Proof. split; reflexivity. Qed.

(** C4. For a data sequence of count n, 2 <= n < 2^32, and any value m,
    the standard deviation is sqrt(sum((x - m)^2) / (n - 1)). *)
Theorem C4_standard_deviation_is_bessel_corrected
    (pow : float -> float -> float) (data : array) (size : Z)
    (xs : list float) (m : float) :
  Dataset data size = Some xs ->
  2 <= size < 2 ^ 32 ->
  computeStandardDeviation pow data size m
  = Some (PrimFloat.sqrt
            (sum (map (fun x => pow (x - m)%float 2%float) xs)
             / double_of_uint (size - 1)))%float.
Proof.
  intros H Hsize. rewrite (computeStandardDeviation_Dataset pow data size xs m H).
  now rewrite wrap32_small by lia.
Qed.

Lemma C4_one_two_three :
  Dataset [Some 1; Some 2; Some 3]%float 3 = Some [1; 2; 3]%float /\
  2 <= 3 < 2 ^ 32 /\
  computeStandardDeviation pow_square [Some 1; Some 2; Some 3]%float 3 2%float
  = Some 1%float.
Proof.
  split; [reflexivity|]. split; [lia|].
  rewrite (C4_standard_deviation_is_bessel_corrected
             pow_square [Some 1; Some 2; Some 3]%float 3 [1; 2; 3]%float 2%float
             eq_refl ltac:(lia)).
  reflexivity.
Defined.

(** C5. For a data sequence of count n >= 1 the mean is sum(data) / n;
    for n = 0 the division is 0.0 / 0.0 and the result is not a
    number. *)
Theorem C5_mean_is_sum_over_count (data : array) (size : Z) (xs : list float) :
  Dataset data size = Some xs ->
  (1 <= size -> computeMean data size = Some (sum xs / double_of_uint size)%float) /\
  (size = 0 -> computeMean data size = Some nan).
Proof.
  intros H. rewrite (computeMean_Dataset data size xs H). split; [reflexivity|].
  intros ->. apply Dataset_cells in H as [Hlen _].
  destruct xs; [reflexivity|discriminate].
Qed.

Lemma C5_one_two_three :
  Dataset [Some 1; Some 2; Some 3]%float 3 = Some [1; 2; 3]%float /\
  computeMean [Some 1; Some 2; Some 3]%float 3 = Some 2%float /\
  computeMean [] 0 = Some nan.
Proof.
  split; [reflexivity|]. split.
  - rewrite (proj1 (C5_mean_is_sum_over_count
                      [Some 1; Some 2; Some 3]%float 3 [1; 2; 3]%float eq_refl)
                   ltac:(lia)).
    reflexivity.
  - exact (proj2 (C5_mean_is_sum_over_count [] 0 [] eq_refl) eq_refl).
Defined.

(** ** The loop of main *)

(** One iteration on a file that exists: it returns, with the object
    disposed, after the messages of the loader and the report. *)
Lemma process_file_existing (pow : float -> float -> float) (fs : filesystem)
    (model : ChargeDataModel) (file content : str) (out : list event) :
  m_file model = None -> m_charges model = None ->
  fs file = Some content ->
  exists mean err sd : float,
    process_file pow fs model file out
    = (Returned (mkModel None file None),
       (out ++ map (fun _ => CorruptDataPoint file)
                   (filter rejected (lines_read content)))
       ++ [Report file mean err sd]).
Proof.
  intros Hfile Hcharges Hfs. unfold process_file.
  destruct (getChargeData_loads fs (init model file) content None out)
    as (model1 & Hpath & Hget & _); try assumption.
  unfold bind at 1. rewrite Hget. cbn [init m_filepath] in *.
  pose proof (Dataset_prefix (kept (lines_read content))
                (repeat None (length (filter rejected (lines_read content)))))
    as Hdata.
  rewrite (computeMean_Dataset _ _ _ Hdata).
  rewrite (computeStandardDeviation_Dataset pow _ _ _ _ Hdata).
  do 3 eexists. unfold bind, print, ret, dispose. rewrite Hpath. reflexivity.
Qed.

Lemma main_loop_existing (pow : float -> float -> float) (fs : filesystem)
    (files : list str) :
  Forall (fun q => fs q <> None) files ->
  forall (model : ChargeDataModel) (out : list event),
  m_file model = None -> m_charges model = None ->
  exists (model1 : ChargeDataModel) (out1 : list event),
    main_loop pow fs files model out = (Returned model1, out ++ out1) /\
    m_file model1 = None /\ m_charges model1 = None.
Proof.
  induction 1 as [|q files Hq _ IH]; intros model out Hfile Hcharges.
  - exists model, []. rewrite app_nil_r. now repeat split.
  - destruct (fs q) as [content|] eqn:Hfs; [|contradiction].
    destruct (process_file_existing pow fs model q content out Hfile Hcharges Hfs)
      as (mean & err & sd & Hp).
    cbn [main_loop]. unfold bind. rewrite Hp.
    destruct (IH (mkModel None q None)
                 ((out ++ map (fun _ => CorruptDataPoint q)
                              (filter rejected (lines_read content)))
                  ++ [Report q mean err sd]) eq_refl eq_refl)
      as (model1 & out1 & Hloop & Hclosed).
    exists model1. eexists. split; [|exact Hclosed].
    rewrite Hloop. rewrite <- !app_assoc. reflexivity.
Qed.

Lemma main_loop_app (pow : float -> float -> float) (fs : filesystem)
    (a b : list str) :
  forall (model : ChargeDataModel) (out : list event),
  main_loop pow fs (a ++ b) model out
  = (model1 <- main_loop pow fs a model ;; main_loop pow fs b model1) out.
Proof.
  induction a as [|q a IH]; intros model out; [reflexivity|].
  cbn [app main_loop]. unfold bind.
  destruct (process_file pow fs model q out) as [[model1| |] out1];
    try reflexivity.
  rewrite IH. reflexivity.
Qed.

Lemma process_file_missing (pow : float -> float -> float) (fs : filesystem)
    (model : ChargeDataModel) (file : str) (out : list event) :
  m_file model = None -> m_charges model = None ->
  fs file = None ->
  process_file pow fs model file out = (Exited 0, out ++ [CouldNotOpen file]).
Proof.
  intros Hfile Hcharges Hfs. unfold process_file, getChargeData.
  cbn [init m_charges]. rewrite Hcharges. unfold bind.
  rewrite loadDataFromFile_missing by assumption. reflexivity.
Qed.

(** C6. A file that cannot be opened ends the run: [load] prints the
    message and the process exits; in [main] the files before it are
    processed, the message follows, and nothing is done for that file
    or for any file after it. *)
Theorem C6_unopenable_file_ends_the_run
    (pow : float -> float -> float) (fs : filesystem) (p : str)
    (before after : list str) :
  fs p = None ->
  Forall (fun q => fs q <> None) before ->
  load fs p [] = (Exited 0, [CouldNotOpen p]) /\
  exists (model : ChargeDataModel) (out : list event),
    main_loop pow fs before new_model [] = (Returned model, out) /\
    main pow fs (before ++ p :: after) [] = (Exited 0, out ++ [CouldNotOpen p]).
Proof.
  intros Hp Hbefore. split; [exact (load_missing fs p [] Hp)|].
  destruct (main_loop_existing pow fs before Hbefore new_model [] eq_refl eq_refl)
    as (model & out & Hloop & Hfile & Hcharges).
  exists model, out. split; [exact Hloop|].
  unfold main. unfold bind at 1. rewrite main_loop_app.
  unfold bind at 1. rewrite Hloop. cbn [main_loop]. unfold bind at 1.
  now rewrite process_file_missing.
Qed.

Lemma C6_missing_second_file :
  one_file millikan (file_of [lit "1.0"; lit "3.0"] []) (lit "absent.dat") = None /\
  main pow_square (one_file millikan (file_of [lit "1.0"; lit "3.0"] []))
       [millikan; lit "absent.dat"; millikan] []
  = (Exited 0,
     [Report millikan 2 (2 / PrimFloat.sqrt 2) (PrimFloat.sqrt 2);
      CouldNotOpen (lit "absent.dat")]%float).
Proof.
  split; [reflexivity|].
  destruct (C6_unopenable_file_ends_the_run
              pow_square (one_file millikan (file_of [lit "1.0"; lit "3.0"] []))
              (lit "absent.dat") [millikan] [millikan])
    as (_ & model & out & Hloop & Hmain).
  - reflexivity.
  - constructor; [|constructor]. vm_compute. discriminate.
  - vm_compute in Hloop. inversion Hloop; subst model out.
    cbn [app] in Hmain. rewrite Hmain. vm_compute. reflexivity.
Defined.

(** ** Loading twice *)

(** C9. Loading the same file twice gives the same Dataset: the object
    that [main] reuses, disposed between the two loads, hands out the
    same array and the same size, and so does a further call that
    answers from the array already loaded. *)
Theorem C9_loading_twice_gives_the_same_dataset
    (fs : filesystem) (p content : str) (out : list event) :
  fs p = Some content ->
  exists (data : array) (size : Z) (d : list float) (out1 : list event),
    load_again fs p out
    = (Returned ((Some data, Some size), (Some data, Some size),
                 (Some data, Some size)), out1) /\
    Dataset data size = Some d /\
    fst (load fs p out) = Returned (d, size).
Proof.
  intros Hfs.
  destruct (getChargeData_loads fs (init new_model p) content None out)
    as (model1 & Hpath1 & Hget1 & _); try reflexivity; try assumption.
  set (out1 := out ++ map (fun _ => CorruptDataPoint p)
                          (filter rejected (lines_read content))).
  destruct (getChargeData_loads fs (init (dispose model1) p) content None out1)
    as (model2 & Hpath2 & Hget2 & Hcharges2); try reflexivity; try assumption.
  do 4 eexists. split; [|split].
  - unfold load_again. unfold bind at 1. rewrite Hget1.
    cbn [init new_model m_filepath] in *. fold out1.
    unfold bind at 1. rewrite Hget2.
    unfold bind at 1. unfold getChargeData. rewrite Hcharges2.
    reflexivity.
  - apply Dataset_prefix.
  - now rewrite (load_existing fs p content out Hfs).
Qed.

Lemma C9_three_lines_twice :
  one_file millikan (file_of [lit "1.0"; lit "x"; lit "-3.0"] []) millikan
  = Some (file_of [lit "1.0"; lit "x"; lit "-3.0"] []) /\
  exists (data : array) (size : Z) (out1 : list event),
    load_again (one_file millikan (file_of [lit "1.0"; lit "x"; lit "-3.0"] []))
               millikan []
    = (Returned ((Some data, Some size), (Some data, Some size),
                 (Some data, Some size)), out1).
Proof.
  split; [reflexivity|].
  destruct (C9_loading_twice_gives_the_same_dataset
              (one_file millikan (file_of [lit "1.0"; lit "x"; lit "-3.0"] []))
              millikan (file_of [lit "1.0"; lit "x"; lit "-3.0"] []) [] eq_refl)
    as (data & size & d & out1 & H & _).
  now exists data, size, out1.
Defined.

(** * Further properties of the code *)

(** ** namespace String *)

Lemma ltrim_prefix (s : str) : exists p, s = p ++ ltrim s /\ allspace p = true.
Proof.
  induction s as [|c s (p & IH & Hp)]; simpl.
  - now exists [].
  - destruct (isspace c) eqn:Hc.
    + exists (c :: p). simpl. rewrite Hc, Hp. split; [now f_equal|reflexivity].
    + now exists [].
Qed.

Lemma ltrim_allspace_app (a r : str) : allspace a = true -> ltrim (a ++ r) = ltrim r.
Proof.
  induction a as [|c a IH]; simpl; [reflexivity|].
  intros H. apply andb_prop in H as [Hc Ha]. now rewrite Hc, IH.
Qed.

Lemma ltrim_allspace (a : str) : allspace a = true -> ltrim a = [].
Proof.
  intros H. rewrite <- (app_nil_r a). now rewrite ltrim_allspace_app.
Qed.

Lemma ltrim_nil_allspace (s : str) : ltrim s = [] -> allspace s = true.
Proof.
  induction s as [|c s IH]; simpl; [reflexivity|].
  destruct (isspace c); [exact IH|discriminate].
Qed.

Lemma ltrim_fixed (c : ascii) (r : str) : isspace c = false -> ltrim (c :: r) = c :: r.
Proof. intros H. simpl. now rewrite H. Qed.

Lemma ltrim_app (s b : str) : ltrim s <> [] -> ltrim (s ++ b) = ltrim s ++ b.
Proof.
  induction s as [|c s IH]; simpl; [congruence|].
  destruct (isspace c); [exact IH|reflexivity].
Qed.

Lemma allspace_rev (s : str) : allspace (rev s) = allspace s.
Proof.
  unfold allspace. induction s as [|c s IH]; simpl; [reflexivity|].
  rewrite forallb_app, IH. simpl. rewrite andb_true_r. apply andb_comm.
Qed.

Lemma rtrim_suffix (s : str) : exists q, s = rtrim s ++ q /\ allspace q = true.
Proof.
  unfold rtrim. destruct (ltrim_prefix (rev s)) as (p & Hs & Hp).
  exists (rev p). split.
  - rewrite <- rev_app_distr, <- Hs. now rewrite rev_involutive.
  - now rewrite allspace_rev.
Qed.

Lemma rtrim_app_allspace (r b : str) : allspace b = true -> rtrim (r ++ b) = rtrim r.
Proof.
  intros H. unfold rtrim. rewrite rev_app_distr.
  rewrite ltrim_allspace_app; [reflexivity|]. now rewrite allspace_rev.
Qed.

Lemma rtrim_fixed (r : str) (c : ascii) : isspace c = false -> rtrim (r ++ [c]) = r ++ [c].
Proof.
  intros H. unfold rtrim. rewrite rev_app_distr. cbn [rev app].
  rewrite ltrim_fixed by assumption. cbn [rev]. now rewrite rev_involutive.
Qed.

Lemma ltrim_snoc (y : str) (c : ascii) :
  isspace c = false -> ltrim (y ++ [c]) = ltrim y ++ [c].
Proof.
  intros H. induction y as [|d y IH]; simpl.
  - now rewrite H.
  - destruct (isspace d); [exact IH|reflexivity].
Qed.

Lemma rtrim_cons (c : ascii) (r : str) : isspace c = false -> rtrim (c :: r) = c :: rtrim r.
Proof.
  intros H. unfold rtrim. cbn [rev]. rewrite ltrim_snoc by assumption.
  rewrite rev_app_distr. reflexivity.
Qed.

Lemma rtrim_last (s : str) :
  rtrim s = [] \/ exists r c, rtrim s = r ++ [c] /\ isspace c = false.
Proof.
  unfold rtrim. destruct (ltrim (rev s)) as [|d y] eqn:Hy; [now left|].
  right. exists (rev y), d. split; [reflexivity|]. now apply ltrim_head in Hy.
Qed.

Lemma trim_trimmed (s : str) : trimmed (trim s).
Proof.
  unfold trimmed, trim.
  destruct (ltrim s) as [|c r] eqn:Hl; [now left|].
  apply ltrim_head in Hl. rewrite rtrim_cons by assumption.
  right. split; [now exists c, (rtrim r)|].
  rewrite <- rtrim_cons by assumption.
  destruct (rtrim_last (c :: r)) as [H|H]; [|exact H].
  rewrite rtrim_cons in H by assumption. discriminate.
Qed.

Lemma trim_fixed (s : str) : trimmed s -> trim s = s.
Proof.
  intros [->|((c & r & Hs & Hc) & (r' & d & Hs' & Hd))]; [reflexivity|].
  unfold trim. rewrite Hs, ltrim_fixed by assumption. rewrite <- Hs, Hs'.
  now apply rtrim_fixed.
Qed.

(** X1. What [String::trim] leaves neither begins nor ends with
    whitespace, and trimming it again changes nothing; a string that
    neither begins nor ends with whitespace is left as it is. *)
Theorem trim_idempotent (s : str) :
  trimmed (trim s) /\ trim (trim s) = trim s /\
  (forall t, trimmed t -> trim t = t).
Proof.
  split; [apply trim_trimmed|]. split; [|exact trim_fixed].
  apply trim_fixed, trim_trimmed.
Qed.

(** X2. [String::trim] removes whitespace at the two ends and nothing
    else: the string is whitespace, the trimmed string, whitespace. *)
Theorem trim_removes_only_whitespace (s : str) :
  exists a b, s = a ++ trim s ++ b /\ allspace a = true /\ allspace b = true.
Proof.
  unfold trim.
  destruct (ltrim_prefix s) as (a & Hs & Ha).
  destruct (rtrim_suffix (ltrim s)) as (b & Hl & Hb).
  exists a, b. repeat split; try assumption.
  now rewrite <- Hl.
Qed.

Lemma trim_surrounded (a s b : str) :
  allspace a = true -> allspace b = true -> trim (a ++ s ++ b) = trim s.
Proof.
  intros Ha Hb. unfold trim. rewrite ltrim_allspace_app by assumption.
  destruct (ltrim s) as [|c r] eqn:Hl.
  - rewrite ltrim_allspace; [reflexivity|].
    pose proof (ltrim_nil_allspace s Hl) as Hs.
    unfold allspace in *. now rewrite forallb_app, Hb, Hs.
  - rewrite ltrim_app by congruence. rewrite Hl.
    now apply rtrim_app_allspace.
Qed.

(** X3. The two halves of [String::trim] can be done in either order. *)
Theorem ltrim_rtrim_commute (s : str) : rtrim (ltrim s) = ltrim (rtrim s).
Proof.
  destruct (ltrim_prefix s) as (a & Hs & Ha).
  destruct (ltrim s) as [|c r] eqn:Hl.
  - rewrite app_nil_r in Hs. subst a.
    assert (rtrim s = []) as ->.
    { rewrite <- (app_nil_l s). now apply rtrim_app_allspace. }
    reflexivity.
  - pose proof (ltrim_head _ _ _ Hl) as Hc.
    destruct (rtrim_suffix (c :: r)) as (q & Hr & Hq).
    destruct (rtrim_last (c :: r)) as [H|(r' & d & H & Hd)].
    + rewrite rtrim_cons in H by assumption. discriminate.
    + pose proof (rtrim_cons c r Hc) as Ht.
      set (t := rtrim (c :: r)) in *.
      assert (rtrim s = a ++ t) as ->.
      { rewrite Hs, Hr, app_assoc, rtrim_app_allspace by assumption.
        rewrite H, app_assoc. now apply rtrim_fixed. }
      rewrite ltrim_allspace_app by assumption.
      rewrite Ht. now rewrite ltrim_fixed.
Qed.

(** X4. Whitespace before and after a line does not change what the
    loader makes of it. *)
Theorem validate_ignores_surrounding_whitespace (a l b : str) :
  allspace a = true -> allspace b = true -> validate (a ++ l ++ b) = validate l.
Proof.
  intros Ha Hb. unfold validate. now rewrite trim_surrounded.
Qed.

Lemma validate_padded_number :
  allspace (lit "  ") = true /\ allspace [" "; "009"]%char = true /\
  validate (lit "  " ++ lit "2.5" ++ [" "; "009"]%char) = Some 2.5%float.
Proof.
  split; [reflexivity|]. split; [reflexivity|].
  rewrite (validate_ignores_surrounding_whitespace
             (lit "  ") (lit "2.5") [" "; "009"]%char eq_refl eq_refl).
  vm_compute. reflexivity.
Defined.

(** ** namespace Input *)

Lemma equal_same_length (pred : ascii -> ascii -> bool) (a b : str) :
  length a = length b -> equal pred a b <> None.
Proof.
  revert b. induction a as [|x a IH]; intros [|y b] H; simpl in *;
    try discriminate.
  destruct (pred x y); [|discriminate]. apply IH. congruence.
Qed.

Lemma icompare_lowered (a b : str) :
  icompare a b = true <-> map tolower a = map tolower b.
Proof.
  unfold icompare. revert b. induction a as [|x a IH]; intros [|y b]; simpl.
  - tauto.
  - split; discriminate.
  - split; discriminate.
  - specialize (IH b). destruct (Nat.eqb (length a) (length b)); simpl in *.
    + destruct (Ascii.eqb_spec (tolower x) (tolower y)) as [He|He].
      * rewrite IH. split; [intros ->; now rewrite He|].
        intros H. now inversion H.
      * split; [discriminate|]. intros H. inversion H. contradiction.
    + split; [discriminate|]. intros H. inversion H as [[Hxy Hab]].
      apply IH in Hab. discriminate.
Qed.

(** X5. [Input::icompare] holds exactly of two strings that are equal
    once their letters A to Z are lowered; strings of different
    lengths never compare equal, and [std::equal] never reads past the
    end of the second string. *)
Theorem icompare_is_equality_of_lowered_strings (a b : str) :
  (icompare a b = true <-> map tolower a = map tolower b) /\
  (length a <> length b -> icompare a b = false) /\
  (length a = length b ->
   equal (fun x y => Ascii.eqb (tolower x) (tolower y)) a b <> None).
Proof.
  split; [apply icompare_lowered|]. split.
  - intros H. unfold icompare. apply Nat.eqb_neq in H. now rewrite H.
  - apply equal_same_length.
Qed.

(** X6. [Input::icompare] is an equivalence: every string compares
    equal to itself, the order of the arguments does not matter, and
    the comparison is transitive. *)
Theorem icompare_is_an_equivalence :
  (forall a, icompare a a = true) /\
  (forall a b, icompare a b = icompare b a) /\
  (forall a b c, icompare a b = true -> icompare b c = true -> icompare a c = true).
Proof.
  split; [|split].
  - intros a. now apply icompare_lowered.
  - intros a b. destruct (icompare a b) eqn:H, (icompare b a) eqn:H';
      try reflexivity.
    + apply icompare_lowered in H. symmetry in H.
      apply icompare_lowered in H. congruence.
    + apply icompare_lowered in H'. symmetry in H'.
      apply icompare_lowered in H'. congruence.
  - intros a b c Hab Hbc. apply icompare_lowered in Hab, Hbc.
    apply icompare_lowered. congruence.
Qed.

Section Options.

Variable message : str.
Variables firstStringSet secondStringSet : list str.

(** The loop goes over lines that match neither set, printing the
    message for each. *)
Lemma options_loop_skips (bad : list str) :
  Forall no_nl bad -> Forall (unmatched firstStringSet secondStringSet) bad ->
  forall (k : nat) (rest : str) (out : list prompt),
  options_loop (length bad + k) message firstStringSet secondStringSet
               (mkStream (join bad ++ rest) false false) out
  = options_loop k message firstStringSet secondStringSet
                 (mkStream rest false false)
                 (out ++ repeat (NotValid message) (length bad)).
Proof.
  intros Hnl Hbad. induction Hnl as [|l bad Hl _ IH]; intros k rest out.
  - cbn. now rewrite app_nil_r.
  - apply Forall_cons_iff in Hbad as [[H1 H2] Hbad].
    cbn [length Nat.add options_loop join flat_map].
    rewrite <- !app_assoc. cbn [app].
    rewrite getline_terminated by assumption. cbn [failbit].
    rewrite H1, H2. fold (join bad). rewrite (IH Hbad).
    cbn [repeat]. rewrite <- app_assoc. reflexivity.
Qed.

Lemma join_length (lines : list str) : (length lines <= length (join lines))%nat.
Proof.
  induction lines as [|l lines IH]; simpl; [lia|].
  rewrite length_app, length_app. simpl. lia.
Qed.

Lemma getBetweenTwoStringSetOptions_skips (bad : list str) (rest : str)
    (out : list prompt) :
  Forall no_nl bad -> Forall (unmatched firstStringSet secondStringSet) bad ->
  exists k : nat,
    (length rest + 2 <= k)%nat /\
    getBetweenTwoStringSetOptions message firstStringSet secondStringSet
      (mkStream (join bad ++ rest) false false) out
    = match options_loop k message firstStringSet secondStringSet
                         (mkStream rest false false)
                         (out ++ repeat (NotValid message) (length bad)) with
      | Some r => r
      | None => (Undefined, mkStream (join bad ++ rest) false false, out)
      end.
Proof.
  intros Hnl Hbad.
  exists (length (join bad ++ rest) + 2 - length bad)%nat.
  pose proof (join_length bad) as Hlen. rewrite length_app. split; [lia|].
  unfold getBetweenTwoStringSetOptions. cbn [buf].
  replace (length (join bad ++ rest) + 2)%nat
    with (length bad + (length (join bad) + length rest + 2 - length bad))%nat
    by (rewrite length_app; lia).
  now rewrite options_loop_skips.
Qed.

(** The first line that matches decides. *)
Lemma options_first_match
    (bad : list str) (answer rest : str) (out : list prompt) :
  Forall no_nl bad ->
  Forall (unmatched firstStringSet secondStringSet) bad ->
  no_nl answer ->
  matches firstStringSet answer || matches secondStringSet answer = true ->
  getBetweenTwoStringSetOptions message firstStringSet secondStringSet
    (mkStream (join bad ++ answer ++ nl :: rest) false false) out
  = (Returned (if matches firstStringSet answer then 1 else -1),
     mkStream rest false false,
     out ++ repeat (NotValid message) (length bad)).
Proof.
  intros Hnl Hbad Hanswer Hmatch.
  destruct (getBetweenTwoStringSetOptions_skips bad (answer ++ nl :: rest) out
              Hnl Hbad) as (k & Hk & ->).
  destruct k as [|k]; [lia|].
  cbn [options_loop]. rewrite getline_terminated by assumption.
  cbn [failbit].
  destruct (matches firstStringSet answer); [reflexivity|].
  cbn [orb] in Hmatch. now rewrite Hmatch.
Qed.

(** X8. When the input ends before any line has matched,
    [Input::getBetweenTwoStringSetOptions] leaves its loop and returns
    [response], which was never assigned. *)
Theorem getBetweenTwoStringSetOptions_end_of_input
    (bad : list str) (last : str) (out : list prompt) :
  Forall no_nl bad ->
  Forall (unmatched firstStringSet secondStringSet) bad ->
  no_nl last ->
  matches firstStringSet last = false -> matches secondStringSet last = false ->
  getBetweenTwoStringSetOptions message firstStringSet secondStringSet
    (mkStream (join bad ++ last) false false) out
  = (Undefined, mkStream [] true true,
     out ++ repeat (NotValid message)
                   (length bad + if empty last then 0 else 1)).
Proof.
  intros Hnl Hbad Hlast H1 H2.
  destruct (getBetweenTwoStringSetOptions_skips bad last out Hnl Hbad)
    as (k & Hk & ->).
  destruct k as [|[|k]]; try lia.
  assert (scan_line last = (last, None)) as Hscan.
  { clear -Hlast. unfold no_nl in Hlast.
    induction last as [|c l IH]; [reflexivity|]. simpl.
    destruct (Ascii.eqb_spec c nl) as [->|_].
    - exfalso. apply Hlast. now left.
    - rewrite IH; [reflexivity|]. intros H. apply Hlast. now right. }
  cbn [options_loop]. unfold getline at 1.
  cbn [good eofbit failbit negb andb buf]. rewrite Hscan. cbn [failbit].
  destruct last as [|c l].
  - cbn [empty]. now rewrite Nat.add_0_r.
  - cbn [empty]. rewrite H1, H2.
    unfold getline. cbn [good eofbit failbit negb andb setfail buf].
    rewrite repeat_app. cbn [repeat]. rewrite <- app_assoc. reflexivity.
Qed.

End Options.

(** X7. [Input::getBetweenTwoStringSetOptions] reads lines until one
    matches a set: for every line before it that matches neither set
    the message is printed once; the answer is 1 when the line matches
    the first set, whether or not it matches the second, and -1
    otherwise; the input after that line is left unread. *)
Theorem getBetweenTwoStringSetOptions_first_match
    (message : str) (firstStringSet secondStringSet : list str)
    (bad : list str) (answer rest : str) (out : list prompt) :
  Forall no_nl bad ->
  Forall (unmatched firstStringSet secondStringSet) bad ->
  no_nl answer ->
  matches firstStringSet answer || matches secondStringSet answer = true ->
  getBetweenTwoStringSetOptions message firstStringSet secondStringSet
    (mkStream (join bad ++ answer ++ nl :: rest) false false) out
  = (Returned (if matches firstStringSet answer then 1 else -1),
     mkStream rest false false,
     out ++ repeat (NotValid message) (length bad)).
Proof. apply options_first_match. Qed.

Lemma matches_lowered (set : list str) (line : str) :
  Forall (fun a => map tolower a = a) set ->
  (matches set line = true <-> In (map tolower line) set).
Proof.
  intros Hset. unfold matches. rewrite existsb_exists.
  rewrite Forall_forall in Hset. split.
  - intros (a & Ha & Hc). apply icompare_lowered in Hc.
    rewrite <- Hc, (Hset a Ha). exact Ha.
  - intros H. exists (map tolower line). split; [exact H|].
    apply icompare_lowered. now rewrite (Hset _ H).
Qed.

Lemma validTrues_lowered : Forall (fun a => map tolower a = a) validTrues.
Proof. repeat constructor. Qed.

Lemma validFalses_lowered : Forall (fun a => map tolower a = a) validFalses.
Proof. repeat constructor. Qed.

Lemma valid_sets_disjoint (w : str) :
  In w validTrues -> In w validFalses -> False.
Proof.
  unfold validTrues, validFalses. cbn. intros H H'.
  repeat match goal with
         | H : _ \/ _ |- _ => destruct H
         | H : False |- _ => contradiction
         end; congruence.
Qed.

(** X9. [Input::getBool] takes yes, y, true and 1 for true and no, n,
    false and 0 for false, in any mix of capitals; every line before
    that which is none of these is answered by the message, and the
    input after the answer is left unread. *)
Theorem getBool_answers (bad : list str) (line rest : str) (out : list prompt) :
  Forall no_nl bad ->
  Forall (fun l => ~ In (map tolower l) (validTrues ++ validFalses)) bad ->
  no_nl line ->
  (In (map tolower line) validTrues ->
   getBool (mkStream (join bad ++ line ++ nl :: rest) false false) out
   = (Returned true, mkStream rest false false,
      out ++ repeat (NotValid yay_or_nay) (length bad))) /\
  (In (map tolower line) validFalses ->
   getBool (mkStream (join bad ++ line ++ nl :: rest) false false) out
   = (Returned false, mkStream rest false false,
      out ++ repeat (NotValid yay_or_nay) (length bad))).
Proof.
  intros Hnl Hbad Hline.
  assert (Forall (unmatched validTrues validFalses) bad) as Hun.
  { rewrite Forall_forall in *. intros l Hl. specialize (Hbad l Hl).
    split; apply not_true_is_false; intros H.
    - apply (matches_lowered _ _ validTrues_lowered) in H.
      apply Hbad, in_or_app. now left.
    - apply (matches_lowered _ _ validFalses_lowered) in H.
      apply Hbad, in_or_app. now right. }
  split; intros Hin; unfold getBool.
  - apply (matches_lowered _ _ validTrues_lowered) in Hin.
    rewrite options_first_match; try assumption.
    + now rewrite Hin.
    + now rewrite Hin.
  - assert (matches validTrues line = false) as Hno.
    { apply not_true_is_false. intros H.
      apply (matches_lowered _ _ validTrues_lowered) in H.
      exact (valid_sets_disjoint _ H Hin). }
    apply (matches_lowered _ _ validFalses_lowered) in Hin.
    rewrite options_first_match; try assumption.
    + now rewrite Hno.
    + rewrite Hin. apply orb_true_r.
Qed.

Lemma getBool_capitals :
  getBool (mkStream (lit "maybe" ++ nl :: lit "YeS" ++ nl :: lit "left") false false) []
  = (Returned true, mkStream (lit "left") false false, [NotValid yay_or_nay]) /\
  getBool (mkStream (lit "N" ++ nl :: lit "left") false false) []
  = (Returned false, mkStream (lit "left") false false, []).
Proof.
  split.
  - refine (proj1 (getBool_answers [lit "maybe"] (lit "YeS") (lit "left") [] _ _ _) _).
    + repeat (constructor; [vm_compute; intuition discriminate|]). constructor.
    + repeat (constructor; [vm_compute; intuition discriminate|]). constructor.
    + vm_compute; intuition discriminate.
    + vm_compute. tauto.
  - refine (proj2 (getBool_answers [] (lit "N") (lit "left") [] _ _ _) _).
    + constructor.
    + constructor.
    + vm_compute; intuition discriminate.
    + vm_compute. tauto.
Defined.

Lemma first_set_wins :
  getBetweenTwoStringSetOptions (lit "?") [lit "a"; lit "b"] [lit "B"; lit "c"]
    (mkStream (join [lit "x"] ++ lit "B" ++ nl :: lit "c") false false) []
  = (Returned 1, mkStream (lit "c") false false, [NotValid (lit "?")]).
Proof.
  refine (getBetweenTwoStringSetOptions_first_match
            (lit "?") [lit "a"; lit "b"] [lit "B"; lit "c"]
            [lit "x"] (lit "B") (lit "c") [] _ _ _ _).
  - repeat (constructor; [vm_compute; intuition discriminate|]). constructor.
  - repeat (constructor; [vm_compute; tauto|]). constructor.
  - vm_compute; intuition discriminate.
  - reflexivity.
Defined.

Lemma input_ends_after_a_wrong_answer :
  getBetweenTwoStringSetOptions yay_or_nay validTrues validFalses
    (mkStream (join [lit "maybe"] ++ lit "ye") false false) []
  = (Undefined, mkStream [] true true, [NotValid yay_or_nay; NotValid yay_or_nay]).
Proof.
  refine (getBetweenTwoStringSetOptions_end_of_input
            yay_or_nay validTrues validFalses [lit "maybe"] (lit "ye") [] _ _ _ _ _).
  - repeat (constructor; [vm_compute; intuition discriminate|]). constructor.
  - repeat (constructor; [vm_compute; tauto|]). constructor.
  - vm_compute; intuition discriminate.
  - reflexivity.
  - reflexivity.
Defined.

(** ** The dialogue of main *)

Lemma getBool_yes (answer rest : str) (out : list prompt) :
  no_nl answer -> matches validTrues answer = true ->
  getBool (mkStream (answer ++ nl :: rest) false false) out
  = (Returned true, mkStream rest false false, out).
Proof.
  intros Hnl Hyes. unfold getBool.
  pose proof (options_first_match
                yay_or_nay validTrues validFalses [] answer rest out
                (Forall_nil _) (Forall_nil _) Hnl) as H.
  cbn [join flat_map app length repeat] in H. rewrite H.
  - rewrite Hyes. now rewrite app_nil_r.
  - now rewrite Hyes.
Qed.

Lemma getBool_no (answer rest : str) (out : list prompt) :
  no_nl answer ->
  matches validTrues answer = false -> matches validFalses answer = true ->
  getBool (mkStream (answer ++ nl :: rest) false false) out
  = (Returned false, mkStream rest false false, out).
Proof.
  intros Hnl Hyes Hno. unfold getBool.
  pose proof (options_first_match
                yay_or_nay validTrues validFalses [] answer rest out
                (Forall_nil _) (Forall_nil _) Hnl) as H.
  cbn [join flat_map app length repeat] in H. rewrite H.
  - rewrite Hyes. now rewrite app_nil_r.
  - rewrite Hno. apply orb_true_r.
Qed.

Lemma typed_cons (name answer : str) (lines : list (str * str)) (rest : str) :
  typed ((name, answer) :: lines) ++ rest
  = name ++ nl :: answer ++ nl :: (typed lines ++ rest).
Proof.
  unfold typed. cbn [flat_map fst snd]. repeat rewrite <- app_assoc.
  reflexivity.
Qed.

Lemma typed_app (a b : list (str * str)) : typed (a ++ b) = typed a ++ typed b.
Proof. unfold typed. apply flat_map_app. Qed.

Lemma typed_length (lines : list (str * str)) :
  (length lines <= length (typed lines))%nat.
Proof.
  induction lines as [|[n a] lines IH]; [reflexivity|].
  rewrite <- (app_nil_r (typed _)), typed_cons, app_nil_r.
  rewrite length_app. cbn [length]. rewrite length_app. cbn [length]. lia.
Qed.

Lemma ask_loop_continues (earlier : list (str * str)) :
  Forall continues earlier ->
  forall (k : nat) (filesToLoad : list str) (rest : str) (out : list prompt),
  ask_loop (length earlier + k) filesToLoad
           (mkStream (typed earlier ++ rest) false false) out
  = ask_loop k (filesToLoad ++ map fst earlier) (mkStream rest false false)
             (out ++ flat_map (fun _ => [EnterFileName; AnotherFile]) earlier).
Proof.
  induction 1 as [|[n a] earlier (Hn & Ha & Hyes) _ IH];
    intros k filesToLoad rest out.
  - cbn. now rewrite !app_nil_r.
  - cbn [fst snd] in *. rewrite typed_cons.
    cbn [length Nat.add ask_loop]. rewrite getline_terminated by assumption.
    rewrite getBool_yes by assumption. rewrite IH.
    cbn [map flat_map fst]. rewrite <- !app_assoc. reflexivity.
Qed.

Lemma ask_files_typed
    (earlier : list (str * str)) (name answer rest : str) :
  Forall continues earlier ->
  no_nl name -> no_nl answer ->
  matches validTrues answer = false -> matches validFalses answer = true ->
  ask_files (mkStream (typed (earlier ++ [(name, answer)]) ++ rest) false false)
  = (Returned (map fst earlier ++ [name]), mkStream rest false false,
     Welcome :: flat_map (fun _ => [EnterFileName; AnotherFile])
                         (earlier ++ [(name, answer)])).
Proof.
  intros Hearlier Hname Hanswer Hyes Hno.
  unfold ask_files. cbn [buf].
  rewrite typed_app. repeat rewrite <- app_assoc.
  set (buffer := typed earlier ++ typed [(name, answer)] ++ rest).
  assert (length earlier <= length buffer)%nat as Hlen.
  { subst buffer. rewrite length_app. pose proof (typed_length earlier). lia. }
  replace (length buffer + 2)%nat
    with (length earlier + S (length buffer + 1 - length earlier))%nat by lia.
  subst buffer. rewrite ask_loop_continues by assumption.
  rewrite typed_cons. cbn [ask_loop].
  rewrite getline_terminated by assumption.
  rewrite getBool_no by assumption.
  rewrite flat_map_app. cbn [typed flat_map app]. repeat rewrite <- app_assoc.
  reflexivity.
Qed.

(** X10. The dialogue of [main] returns the names typed, in order and
    as they were typed, up to the first "no": each name is followed by
    the answer to "another file?", and what is typed after the "no" is
    left unread. *)
Theorem ask_files_collects_the_names
    (earlier : list (str * str)) (name answer rest : str) :
  Forall continues earlier ->
  no_nl name -> no_nl answer ->
  matches validTrues answer = false -> matches validFalses answer = true ->
  ask_files (mkStream (typed (earlier ++ [(name, answer)]) ++ rest) false false)
  = (Returned (map fst earlier ++ [name]), mkStream rest false false,
     Welcome :: flat_map (fun _ => [EnterFileName; AnotherFile])
                         (earlier ++ [(name, answer)])).
Proof. apply ask_files_typed. Qed.

(** X11. When the input ends while [main] still asks (every answer so
    far was a yes, or nothing was typed at all), the empty name is
    pushed and [getBool] returns the value that was never assigned: the
    dialogue has no defined result. *)
Theorem ask_files_input_ends (earlier : list (str * str)) :
  Forall continues earlier ->
  ask_files (mkStream (typed earlier) false false)
  = (Undefined, mkStream [] true true,
     Welcome :: flat_map (fun _ => [EnterFileName; AnotherFile]) earlier
     ++ [EnterFileName; AnotherFile]).
Proof.
  intros Hearlier. unfold ask_files. cbn [buf].
  pose proof (typed_length earlier) as Hlen.
  replace (length (typed earlier) + 2)%nat
    with (length earlier + S (length (typed earlier) + 1 - length earlier))%nat
    by lia.
  rewrite <- (app_nil_r (typed earlier)) at 2.
  rewrite ask_loop_continues by assumption.
  cbn [ask_loop]. reflexivity.
Qed.

Lemma ask_two_files :
  ask_files (mkStream (typed [(lit "a.dat", lit "Y"); (lit " b.dat", lit "no")]
                       ++ lit "x") false false)
  = (Returned [lit "a.dat"; lit " b.dat"], mkStream (lit "x") false false,
     [Welcome; EnterFileName; AnotherFile; EnterFileName; AnotherFile]).
Proof.
  refine (ask_files_collects_the_names
            [(lit "a.dat", lit "Y")] (lit " b.dat") (lit "no") (lit "x") _ _ _ _ _).
  - constructor; [|constructor]. repeat split; vm_compute; intuition discriminate.
  - vm_compute; intuition discriminate.
  - vm_compute; intuition discriminate.
  - reflexivity.
  - reflexivity.
Defined.

Lemma ask_with_nothing_after_yes :
  ask_files (mkStream (typed [(lit "a.dat", lit "y")]) false false)
  = (Undefined, mkStream [] true true,
     [Welcome; EnterFileName; AnotherFile; EnterFileName; AnotherFile]).
Proof.
  refine (ask_files_input_ends [(lit "a.dat", lit "y")] _).
  constructor; [|constructor]. repeat split; vm_compute; intuition discriminate.
Defined.

(** ** class ChargeDataModel *)

Lemma reachable_closed_or_loaded (fs : filesystem) (this : ChargeDataModel) :
  reachable fs this ->
  (m_file this = None /\ m_charges this = None) \/
  (m_file this <> None /\ m_charges this <> None).
Proof.
  induction 1 as [|this filepath _ IH|this _ _
                  |this this1 size size1 data out out1 _ IH Hget].
  - now left.
  - exact IH.
  - now left.
  - unfold getChargeData in Hget.
    destruct (m_charges this) as [charges|] eqn:Hcharges.
    + unfold ret in Hget. inversion Hget; subst. rewrite Hcharges. exact IH.
    + destruct IH as [[Hfile _]|[_ Hc]]; [|congruence].
      unfold bind in Hget.
      destruct (fs (m_filepath this)) as [content|] eqn:Hfs.
      * destruct (loadDataFromFile_opens fs this content out Hfile Hfs)
          as [rest Hload].
        rewrite Hload in Hget. unfold ret in Hget. inversion Hget; subst.
        right. split; discriminate.
      * rewrite loadDataFromFile_missing in Hget by assumption. discriminate.
Qed.

(** X12. Whatever sequence of [init], [dispose] and [getChargeData] a
    [ChargeDataModel] has gone through, its stream is open exactly when
    it holds an array, and a further [getChargeData] never stores or
    reads outside an array: it returns, or the process exits because
    the file cannot be opened. *)
Theorem reachable_model_is_consistent (fs : filesystem) (this : ChargeDataModel) :
  reachable fs this ->
  (m_file this = None <-> m_charges this = None) /\
  forall (size : option Z) (out : list event),
    fst (getChargeData fs this size out) <> Undefined.
Proof.
  intros Hreach. pose proof (reachable_closed_or_loaded fs this Hreach) as H.
  split.
  - destruct H as [[Hf Hc]|[Hf Hc]]; split; intros; congruence.
  - intros size out. unfold getChargeData.
    destruct (m_charges this) as [charges|] eqn:Hcharges; [discriminate|].
    destruct H as [[Hfile _]|[_ Hc]]; [|congruence].
    unfold bind.
    destruct (fs (m_filepath this)) as [content|] eqn:Hfs.
    + destruct (loadDataFromFile_opens fs this content out Hfile Hfs)
        as [rest Hload].
      rewrite Hload. discriminate.
    + rewrite loadDataFromFile_missing by assumption. discriminate.
Qed.

Lemma reachable_after_a_load :
  reachable (one_file millikan (file_of [lit "1.0"] []))
            (init (dispose (init new_model millikan)) (lit "other.dat")) /\
  fst (getChargeData (one_file millikan (file_of [lit "1.0"] []))
         (init (dispose (init new_model millikan)) (lit "other.dat")) None [])
  <> Undefined.
Proof.
  assert (reachable (one_file millikan (file_of [lit "1.0"] []))
            (init (dispose (init new_model millikan)) (lit "other.dat"))) as H
    by (repeat constructor).
  split; [exact H|].
  exact (proj2 (reachable_model_is_consistent _ _ H) None []).
Defined.

(** X13. [init] with another path does not make the object forget what
    it has loaded: until [dispose], [getChargeData] hands out the array
    of the file loaded first, leaves [size] as the caller had it, prints
    nothing and does not look at the new path, whether or not a file is
    there. *)
Theorem getChargeData_after_init_is_stale
    (fs : filesystem) (this : ChargeDataModel) (a content : str)
    (size : option Z) (out : list event) :
  m_file this = None -> m_charges this = None ->
  fs a = Some content ->
  exists (this1 : ChargeDataModel) (data : array) (n : Z) (out1 : list event),
    getChargeData fs (init this a) size out
    = (Returned (this1, Some data, Some n), out1) /\
    forall (b : str) (size' : option Z) (out' : list event),
      getChargeData fs (init this1 b) size' out'
      = (Returned (init this1 b, Some data, size'), out').
Proof.
  intros Hfile Hcharges Hfs.
  destruct (getChargeData_loads fs (init this a) content size out)
    as (this1 & _ & Hget & Hdata); try assumption.
  do 4 eexists. split; [exact Hget|].
  intros b size' out'. unfold getChargeData. cbn [init m_charges].
  rewrite Hdata. reflexivity.
Qed.

Lemma stale_after_init :
  exists (this1 : ChargeDataModel) (data : array) (n : Z) (out1 : list event),
    getChargeData (one_file millikan (file_of [lit "1.0"] []))
                  (init new_model millikan) None []
    = (Returned (this1, Some data, Some n), out1) /\
    getChargeData (one_file millikan (file_of [lit "1.0"] []))
                  (init this1 (lit "absent.dat")) None []
    = (Returned (init this1 (lit "absent.dat"), Some data, None), []).
Proof.
  destruct (getChargeData_after_init_is_stale
              (one_file millikan (file_of [lit "1.0"] [])) new_model millikan
              (file_of [lit "1.0"] []) None [] eq_refl eq_refl eq_refl)
    as (this1 & data & n & out1 & Hget & Hstale).
  exists this1, data, n, out1. split; [exact Hget|]. apply Hstale.
Defined.

Lemma nth_error_repeat_None (k i : nat) :
  (i < k)%nat -> nth_error (repeat (@None float) k) i = Some None.
Proof.
  revert i. induction k as [|k IH]; intros [|i] H; simpl; try lia; auto.
  apply IH. lia.
Qed.

(** X14. For a file that exists, [loadDataFromFile] returns: the array
    has one cell per line read (the number of newlines, as an unsigned
    int), the size and the number of "corrupt data point" messages add
    up to that number, and the cells from [size] on are left
    indeterminate. *)
Theorem loadDataFromFile_accounts_for_every_line
    (fs : filesystem) (this : ChargeDataModel) (content : str)
    (out : list event) :
  m_file this = None ->
  fs (m_filepath this) = Some content ->
  exists (this1 : ChargeDataModel) (data : array) (size : Z)
         (messages : list event),
    loadDataFromFile fs this out = (Returned (this1, size), out ++ messages) /\
    m_charges this1 = Some data /\
    Z.of_nat (length data) = wrap32 (count_nl content) /\
    0 <= size /\
    size + Z.of_nat (length messages) = wrap32 (count_nl content) /\
    Forall (eq (CorruptDataPoint (m_filepath this))) messages /\
    forall i : nat,
      size <= Z.of_nat i < wrap32 (count_nl content) ->
      nth_error data i = Some None.
Proof.
  intros Hfile Hfs.
  destruct (loadDataFromFile_opens fs this content out Hfile Hfs) as [rest Hload].
  pose proof (kept_length (lines_read content)) as Hk.
  pose proof (lines_read_length content) as Hl.
  pose proof (wrap32_range (count_nl content)) as Hr.
  do 4 eexists. split; [exact Hload|]. cbn [m_charges].
  split; [reflexivity|].
  rewrite length_app, !length_map, repeat_length.
  repeat split; try lia.
  - apply Forall_forall. intros e He. apply in_map_iff in He as (l & He & _).
    now symmetry.
  - intros i Hi. rewrite nth_error_app2 by (rewrite length_map; lia).
    rewrite length_map. apply nth_error_repeat_None. lia.
Qed.

Lemma accounts_for_three_lines :
  exists (this1 : ChargeDataModel) (data : array) (messages : list event),
    loadDataFromFile (one_file millikan (file_of [lit "1.0"; lit "-2"; lit ""] []))
                     (init new_model millikan) []
    = (Returned (this1, 1), messages) /\
    length data = 3%nat /\ length messages = 2%nat.
Proof.
  destruct (loadDataFromFile_accounts_for_every_line
              (one_file millikan (file_of [lit "1.0"; lit "-2"; lit ""] []))
              (init new_model millikan)
              (file_of [lit "1.0"; lit "-2"; lit ""] []) [] eq_refl eq_refl)
    as (this1 & data & size & messages & Hload & _ & Hlen & _ & Hsum & _).
  exists this1, data, messages.
  assert (Hsize : size = 1).
  { vm_compute in Hload. now inversion Hload. }
  subst size. split; [exact Hload|].
  change (wrap32 (count_nl (file_of [lit "1.0"; lit "-2"; lit ""] []))) with 3
    in *.
  split; lia.
Defined.

Lemma validate_not_negative (l : str) (v : float) :
  validate l = Some v -> (v <? 0)%float = false.
Proof.
  rewrite validate_parse.
  destruct (snd (parse l) <? 0)%float eqn:Hneg; cbn [orb]; [discriminate|].
  destruct (negb _); [discriminate|]. intros H. now inversion H; subst.
Qed.

Lemma kept_not_negative (lines : list str) :
  Forall (fun v => (v <? 0)%float = false) (kept lines).
Proof.
  unfold kept. induction lines as [|l lines IH]; [constructor|].
  cbn [flat_map]. destruct (validate l) as [v|] eqn:Hv; [|exact IH].
  constructor; [|exact IH]. exact (validate_not_negative l v Hv).
Qed.

(** X15. No value of a Dataset that [load] returns is below zero, and
    the size returned with it is its length. *)
Theorem Dataset_has_no_negative_value
    (fs : filesystem) (p : str) (out out1 : list event)
    (d : list float) (size : Z) :
  load fs p out = (Returned (d, size), out1) ->
  size = Z.of_nat (length d) /\ Forall (fun v => (v <? 0)%float = false) d.
Proof.
  intros Hload. destruct (fs p) as [content|] eqn:Hfs.
  - rewrite (load_existing fs p content out Hfs) in Hload.
    inversion Hload; subst. split; [reflexivity|apply kept_not_negative].
  - rewrite (load_missing fs p out Hfs) in Hload. discriminate.
Qed.

Lemma no_negative_value_in_sample :
  Forall (fun v => (v <? 0)%float = false) [1; 0; 3]%float.
Proof.
  exact (proj2 (Dataset_has_no_negative_value
                  (one_file millikan (file_of [lit "1.0"; lit "foo"; lit "-2"; lit "3.0"] []))
                  millikan [] [CorruptDataPoint millikan] [1; 0; 3]%float 3
                  ltac:(vm_compute; reflexivity))).
Defined.

(** ** namespace DataAnalysis *)

Lemma mean_loop_reads (data : array) (n : nat) :
  forall (i : Z) (total : float),
  mean_loop data n i total <> None ->
  forall k : nat, (k < n)%nat -> read data (i + Z.of_nat k) <> None.
Proof.
  induction n as [|n IH]; intros i total H k Hk; [lia|].
  cbn [mean_loop] in H. destruct (read data i) as [x|] eqn:Hx; [|congruence].
  destruct k as [|k].
  - change (Z.of_nat 0) with 0. rewrite Z.add_0_r. congruence.
  - replace (i + Z.of_nat (S k)) with (i + 1 + Z.of_nat k) by lia.
    apply (IH (i + 1) _ H). lia.
Qed.

Lemma deviation_loop_reads (pow : float -> float -> float) (data : array)
    (mean : float) (n : nat) :
  forall (i : Z) (total : float),
  deviation_loop pow data mean n i total <> None ->
  forall k : nat, (k < n)%nat -> read data (i + Z.of_nat k) <> None.
Proof.
  induction n as [|n IH]; intros i total H k Hk; [lia|].
  cbn [deviation_loop] in H. destruct (read data i) as [x|] eqn:Hx; [|congruence].
  destruct k as [|k].
  - change (Z.of_nat 0) with 0. rewrite Z.add_0_r. congruence.
  - replace (i + Z.of_nat (S k)) with (i + 1 + Z.of_nat k) by lia.
    apply (IH (i + 1) _ H). lia.
Qed.

Lemma reads_Dataset (data : array) :
  forall n : nat,
  (forall k : nat, (k < n)%nat -> read data (Z.of_nat k) <> None) ->
  (n <= length data)%nat /\ determinate (firstn n data) <> None.
Proof.
  unfold read. induction data as [|c data IH]; intros n H.
  - destruct n as [|n]; [split; [lia|discriminate]|].
    exfalso. apply (H 0%nat); [lia|]. reflexivity.
  - destruct n as [|n]; [split; [simpl; lia|discriminate]|].
    destruct (IH n) as [Hlen Hdet].
    { intros k Hk. specialize (H (S k) ltac:(lia)).
      rewrite Nat2Z.id in *. exact H. }
    split; [simpl; lia|].
    specialize (H 0%nat ltac:(lia)). cbn in H.
    destruct c as [x|]; [|congruence].
    cbn [firstn determinate]. destruct (determinate (firstn n data)); congruence.
Qed.

(** X16. The statistics read the cells 0 to size - 1 and no other: the
    mean and the standard deviation are defined exactly when the array
    has that many cells and each of them holds a value. *)
Theorem statistics_read_the_first_size_cells
    (pow : float -> float -> float) (data : array) (size : Z) (mean : float) :
  0 <= size ->
  (computeMean data size <> None <-> Dataset data size <> None) /\
  (computeStandardDeviation pow data size mean <> None <->
   Dataset data size <> None).
Proof.
  intros Hsize.
  assert (forall n, (forall k, (k < n)%nat -> read data (0 + Z.of_nat k) <> None) ->
                    n = Z.to_nat size -> Dataset data size <> None) as Hdata.
  { intros n Hreads ->. destruct (reads_Dataset data (Z.to_nat size)) as [Hlen Hdet].
    - intros k Hk. exact (Hreads k Hk).
    - unfold Dataset.
      destruct (Z.leb_spec 0 size); [|lia].
      destruct (Z.leb_spec size (Z.of_nat (length data))); [|lia].
      exact Hdet. }
  split; split.
  - unfold computeMean. intros H.
    destruct (mean_loop data (Z.to_nat size) 0 0%float) eqn:Hloop; [|congruence].
    apply (Hdata (Z.to_nat size)); [|reflexivity].
    apply (mean_loop_reads data _ 0 0%float). congruence.
  - intros H. destruct (Dataset data size) as [xs|] eqn:Hxs; [|congruence].
    rewrite (computeMean_Dataset data size xs Hxs). discriminate.
  - unfold computeStandardDeviation. intros H.
    destruct (deviation_loop pow data mean (Z.to_nat size) 0 0%float) eqn:Hloop;
      [|congruence].
    apply (Hdata (Z.to_nat size)); [|reflexivity].
    apply (deviation_loop_reads pow data mean _ 0 0%float). congruence.
  - intros H. destruct (Dataset data size) as [xs|] eqn:Hxs; [|congruence].
    rewrite (computeStandardDeviation_Dataset pow data size xs mean Hxs).
    discriminate.
Qed.

Lemma statistics_past_the_values :
  0 <= 2 /\
  computeMean [Some 1%float; None] 2 = None /\
  computeStandardDeviation pow_square [Some 1%float] 2 1%float = None.
Proof.
  split; [lia|].
  destruct (statistics_read_the_first_size_cells
              pow_square [Some 1%float; None] 2 1%float ltac:(lia)) as [Hm _].
  destruct (statistics_read_the_first_size_cells
              pow_square [Some 1%float] 2 1%float ltac:(lia)) as [_ Hd].
  split.
  - destruct (computeMean [Some 1%float; None] 2) eqn:H; [|reflexivity].
    exfalso. apply (proj1 Hm); [discriminate|reflexivity].
  - destruct (computeStandardDeviation pow_square [Some 1%float] 2 1%float) eqn:H;
      [|reflexivity].
    exfalso. apply (proj1 Hd); [discriminate|reflexivity].
Defined.

(** ** main *)

(** One iteration of the loop of [main] on a file that exists, with
    what it reports. *)
Lemma process_file_reports (pow : float -> float -> float) (fs : filesystem)
    (model : ChargeDataModel) (file content : str) (out : list event) :
  m_file model = None -> m_charges model = None ->
  fs file = Some content ->
  process_file pow fs model file out
  = (Returned (mkModel None file None),
     (out ++ map (fun _ => CorruptDataPoint file)
                 (filter rejected (lines_read content)))
     ++ [Report file
           (sum (kept (lines_read content))
            / double_of_uint (Z.of_nat (length (kept (lines_read content)))))
           (computeStandardErrorInTheMean
              (sum (kept (lines_read content))
               / double_of_uint (Z.of_nat (length (kept (lines_read content)))))
              (Z.of_nat (length (kept (lines_read content)))))
           (PrimFloat.sqrt
              (sum (map (fun x =>
                           pow (x - sum (kept (lines_read content))
                                    / double_of_uint
                                        (Z.of_nat (length (kept (lines_read content)))))
                               2)
                        (kept (lines_read content)))
               / double_of_uint
                   (wrap32 (Z.of_nat (length (kept (lines_read content))) - 1))))]%float).
Proof.
  intros Hfile Hcharges Hfs. unfold process_file.
  destruct (getChargeData_loads fs (init model file) content None out)
    as (model1 & Hpath & Hget & _); try assumption.
  unfold bind at 1. rewrite Hget. cbn [init m_filepath] in *.
  pose proof (Dataset_prefix (kept (lines_read content))
                (repeat None (length (filter rejected (lines_read content)))))
    as Hdata.
  rewrite (computeMean_Dataset _ _ _ Hdata).
  rewrite (computeStandardDeviation_Dataset pow _ _ _ _ Hdata).
  unfold bind, print, ret, dispose. rewrite Hpath. reflexivity.
Qed.

(** X17. A file in which no line is kept (an empty file, a file without
    a newline, a file of corrupt lines only) is reported with a mean
    and an error that are not numbers and a standard deviation of
    zero: the mean is 0.0 / 0.0, and [size - 1] wraps to 4294967295. *)
Theorem file_without_values_is_reported_as_nan
    (pow : float -> float -> float) (fs : filesystem) (p content : str) :
  fs p = Some content ->
  kept (lines_read content) = [] ->
  main pow fs [p] []
  = (Returned 0,
     map (fun _ => CorruptDataPoint p) (filter rejected (lines_read content))
     ++ [Report p nan nan 0; PressAnyKey]).
Proof.
  intros Hfs Hkept. unfold main. cbn [main_loop]. unfold bind at 1 2.
  rewrite (process_file_reports pow fs new_model p content [] eq_refl eq_refl Hfs).
  rewrite Hkept. cbn [app length map]. unfold ret, bind, print.
  rewrite <- app_assoc. reflexivity.
Qed.

Lemma empty_file_is_reported_as_nan :
  main pow_square (one_file millikan []) [millikan] []
  = (Returned 0, [Report millikan nan nan 0; PressAnyKey]).
Proof.
  exact (file_without_values_is_reported_as_nan
           pow_square (one_file millikan []) millikan [] eq_refl eq_refl).
Defined.

Lemma reported_app (a b : list event) : reported (a ++ b) = reported a ++ reported b.
Proof. unfold reported. apply flat_map_app. Qed.

Lemma reported_messages (file : str) (lines : list str) :
  reported (map (fun _ => CorruptDataPoint file) lines) = [].
Proof. induction lines as [|l lines IH]; [reflexivity|exact IH]. Qed.

Lemma main_loop_reports (pow : float -> float -> float) (fs : filesystem)
    (files : list str) :
  Forall (fun q => fs q <> None) files ->
  forall (model : ChargeDataModel) (out : list event),
  m_file model = None -> m_charges model = None ->
  exists (model1 : ChargeDataModel) (out1 : list event),
    main_loop pow fs files model out = (Returned model1, out ++ out1) /\
    reported out1 = files.
Proof.
  induction 1 as [|q files Hq _ IH]; intros model out Hfile Hcharges.
  - exists model, []. now rewrite app_nil_r.
  - destruct (fs q) as [content|] eqn:Hfs; [|contradiction].
    cbn [main_loop]. unfold bind.
    rewrite (process_file_reports pow fs model q content out Hfile Hcharges Hfs).
    match goal with
    | |- context [main_loop pow fs files ?m ((out ++ ?d) ++ [?r])] =>
        destruct (IH m ((out ++ d) ++ [r]) eq_refl eq_refl)
          as (model1 & out1 & Hloop & Hrep);
        exists model1, (d ++ [r] ++ out1); split
    end.
    + rewrite Hloop. repeat rewrite <- app_assoc. reflexivity.
    + rewrite !reported_app, reported_messages, Hrep. reflexivity.
Qed.

(** X18. When every file asked for can be opened, [main] returns 0
    after one report per file, in the order asked, and its last message
    is the invitation to press a key. *)
Theorem main_reports_every_file
    (pow : float -> float -> float) (fs : filesystem) (files : list str) :
  Forall (fun q => fs q <> None) files ->
  exists out : list event,
    main pow fs files [] = (Returned 0, out ++ [PressAnyKey]) /\
    reported out = files.
Proof.
  intros Hfiles.
  destruct (main_loop_reports pow fs files Hfiles new_model [] eq_refl eq_refl)
    as (model1 & out1 & Hloop & Hrep).
  exists out1. split; [|exact Hrep].
  unfold main. unfold bind at 1. rewrite Hloop. reflexivity.
Qed.

Lemma main_reports_the_same_file_twice :
  exists out : list event,
    main pow_square (one_file millikan (file_of [lit "1.0"] []))
         [millikan; millikan] []
    = (Returned 0, out ++ [PressAnyKey]) /\
    reported out = [millikan; millikan].
Proof.
  apply main_reports_every_file.
  repeat (constructor; [vm_compute; discriminate|]). constructor.
Defined.

Lemma main_loop_ends (pow : float -> float -> float) (fs : filesystem)
    (files : list str) :
  forall (model : ChargeDataModel) (out : list event),
  m_file model = None -> m_charges model = None ->
  (exists model1 out1, main_loop pow fs files model out = (Returned model1, out1)) \/
  (exists out1, main_loop pow fs files model out = (Exited 0, out1)).
Proof.
  induction files as [|q files IH]; intros model out Hfile Hcharges.
  - left. now exists model, out.
  - cbn [main_loop]. unfold bind.
    destruct (fs q) as [content|] eqn:Hfs.
    + rewrite (process_file_reports pow fs model q content out Hfile Hcharges Hfs).
      apply IH; reflexivity.
    + rewrite process_file_missing by assumption. right. now eexists.
Qed.

(** X19. Whatever files are asked for and whatever they hold, [main]
    ends with status 0, by returning or by [exit]; it never stores or
    reads outside the array of charges. *)
Theorem main_always_ends_with_status_0
    (pow : float -> float -> float) (fs : filesystem) (files : list str) :
  fst (main pow fs files []) = Returned 0 \/
  fst (main pow fs files []) = Exited 0.
Proof.
  unfold main, bind.
  destruct (main_loop_ends pow fs files new_model [] eq_refl eq_refl)
    as [(model1 & out1 & H)|(out1 & H)]; rewrite H; [left|right]; reflexivity.
Qed.

(** X20. The whole program: when the names typed are all files that can
    be opened, it reports each of them once, in the order typed, and
    returns 0. *)
Theorem run_reports_the_files_typed
    (pow : float -> float -> float) (fs : filesystem)
    (earlier : list (str * str)) (name answer rest : str) :
  Forall continues earlier ->
  no_nl name -> no_nl answer ->
  matches validTrues answer = false -> matches validFalses answer = true ->
  Forall (fun q => fs q <> None) (map fst earlier ++ [name]) ->
  exists (asked : list prompt) (out : list event),
    run pow fs (mkStream (typed (earlier ++ [(name, answer)]) ++ rest) false false)
    = (Returned 0, asked, out ++ [PressAnyKey]) /\
    reported out = map fst earlier ++ [name].
Proof.
  intros Hearlier Hname Hanswer Hyes Hno Hfiles.
  unfold run. rewrite ask_files_typed by assumption.
  destruct (main_loop_reports pow fs _ Hfiles new_model [] eq_refl eq_refl)
    as (model1 & out1 & Hloop & Hrep).
  unfold main. unfold bind at 1. rewrite Hloop.
  do 2 eexists. split; [reflexivity|exact Hrep].
Qed.

Lemma run_two_files :
  exists (asked : list prompt) (out : list event),
    run pow_square (one_file millikan (file_of [lit "1.0"] []))
        (mkStream (typed ([(millikan, lit "y")] ++ [(millikan, lit "n")]) ++ [])
                  false false)
    = (Returned 0, asked, out ++ [PressAnyKey]) /\
    reported out = [millikan; millikan].
Proof.
  refine (run_reports_the_files_typed
            pow_square (one_file millikan (file_of [lit "1.0"] []))
            [(millikan, lit "y")] millikan (lit "n") [] _ _ _ _ _ _).
  - constructor; [|constructor]. repeat split; vm_compute; intuition discriminate.
  - vm_compute; intuition discriminate.
  - vm_compute; intuition discriminate.
  - reflexivity.
  - reflexivity.
  - repeat (constructor; [vm_compute; discriminate|]). constructor.
Defined.

(** ** The loader, line by line *)

(** X21. The check of [loadDataFromFile] keeps a line exactly when the
    line is not blank, the value left in [possibleCharge] is not below
    zero, and the extraction either failed or took the whole trimmed
    line; the value kept is the one left in [possibleCharge]. *)
Theorem validate_keeps_exactly (l : str) (v : float) :
  validate l = Some v <->
  blank l = false /\ snd (parse l) = v /\ (v <? 0)%float = false /\
  (failbit (fst (parse l)) = true \/ buf (fst (parse l)) = []).
Proof.
  rewrite validate_parse.
  destruct (parse_cases l) as [[Hb Hp]|(Hb & f & rest & v' & err & _ & _ & Hp & Hrest)];
    rewrite Hp; cbn [fst snd failbit buf].
  - split; [discriminate|]. intros (H & _). congruence.
  - assert (empty (snd (extract_string (mkStream rest (empty rest) err) []))
            = err || empty rest) as He.
    { destruct err.
      - rewrite extract_string_refused; [reflexivity|].
        unfold good. cbn [failbit negb]. apply andb_false_r.
      - destruct rest as [|c r].
        + now rewrite extract_string_refused.
        + cbn [empty orb negb]. apply extract_string_word, Hrest. discriminate. }
    rewrite He.
    destruct (v' <? 0)%float eqn:Hneg; cbn [orb].
    + split; [discriminate|]. intros (_ & <- & H & _). congruence.
    + destruct err; cbn [orb negb].
      * split; [intros H; inversion H; subst; auto|].
        intros (_ & <- & _). reflexivity.
      * destruct rest as [|c r]; cbn [empty negb].
        -- split; [intros H; inversion H; subst; auto|].
           intros (_ & <- & _). reflexivity.
        -- split; [discriminate|]. intros (_ & _ & _ & [H|H]); discriminate.
Qed.

(** X22. [load] keeps the values of the first n lines of a file, where
    n is the number of its newlines as an unsigned int (the number
    itself below 2^32): it reads as many lines as [getLineCount]
    counted. *)
Theorem load_reads_as_many_lines_as_counted
    (fs : filesystem) (p : str) (lines : list str) (tail : str)
    (out : list event) :
  Forall no_nl lines -> no_nl tail ->
  fs p = Some (file_of lines tail) ->
  fst (load fs p out)
  = Returned
      (kept (firstn (Z.to_nat (wrap32 (Z.of_nat (length lines)))) lines),
       Z.of_nat (length (kept (firstn (Z.to_nat (wrap32 (Z.of_nat (length lines))))
                                      lines)))) /\
  (Z.of_nat (length lines) < 2 ^ 32 ->
   firstn (Z.to_nat (wrap32 (Z.of_nat (length lines)))) lines = lines).
Proof.
  intros Hnl Ht Hfs. split.
  - rewrite (load_existing fs p _ out Hfs). cbn [fst].
    now rewrite lines_read_file_of.
  - intros Hlen. rewrite wrap32_small by lia. rewrite Nat2Z.id. apply firstn_all.
Qed.

Lemma load_reads_two_lines :
  fst (load (one_file millikan (file_of [lit "1.0"; lit "2.0"] (lit "3.0")))
            millikan [])
  = Returned ([1; 2]%float, 2).
Proof.
  refine (eq_trans
            (proj1 (load_reads_as_many_lines_as_counted
                      (one_file millikan (file_of [lit "1.0"; lit "2.0"] (lit "3.0")))
                      millikan [lit "1.0"; lit "2.0"] (lit "3.0") [] _ _ _)) _).
  - repeat (constructor; [vm_compute; intuition discriminate|]). constructor.
  - vm_compute; intuition discriminate.
  - reflexivity.
  - vm_compute. reflexivity.
Defined.

(** X23. Appending a file to a file that ends in a newline appends its
    Dataset: the values of the first file, then those of the second
    (fewer than 2^32 lines in all). *)
Theorem load_of_appended_files
    (fs : filesystem) (pa pb pab : str) (a b : list str) (tail : str)
    (out : list event) :
  Forall no_nl a -> Forall no_nl b -> no_nl tail ->
  Z.of_nat (length a + length b) < 2 ^ 32 ->
  fs pa = Some (file_of a []) ->
  fs pb = Some (file_of b tail) ->
  fs pab = Some (file_of a [] ++ file_of b tail) ->
  exists da db : list float,
    fst (load fs pa out) = Returned (da, Z.of_nat (length da)) /\
    fst (load fs pb out) = Returned (db, Z.of_nat (length db)) /\
    fst (load fs pab out) = Returned (da ++ db, Z.of_nat (length (da ++ db))).
Proof.
  intros Ha Hb Ht Hlen Hpa Hpb Hpab.
  exists (kept a), (kept b).
  rewrite (load_existing fs pa _ out Hpa), (load_existing fs pb _ out Hpb),
    (load_existing fs pab _ out Hpab). cbn [fst].
  assert (file_of a [] ++ file_of b tail = file_of (a ++ b) tail) as ->.
  { unfold file_of. now rewrite app_nil_r, join_app, app_assoc. }
  assert (Z.of_nat (length (a ++ b)) < 2 ^ 32) by (rewrite length_app; lia).
  assert (Forall no_nl (a ++ b)) by now apply Forall_app.
  assert (no_nl []) by (intros H'; exact H').
  rewrite !lines_read_all by (assumption || lia).
  now rewrite kept_app.
Qed.

Lemma load_of_two_appended_files :
  exists da db : list float,
    fst (load (fun q => if list_eq_dec ascii_dec q (lit "a") then
                          Some (file_of [lit "1.0"] [])
                        else if list_eq_dec ascii_dec q (lit "b") then
                          Some (file_of [lit "2.0"] (lit "9"))
                        else Some (file_of [lit "1.0"] [] ++
                                   file_of [lit "2.0"] (lit "9")))
              (lit "ab") [])
    = Returned (da ++ db, Z.of_nat (length (da ++ db))) /\
    da ++ db = [1; 2]%float.
Proof.
  destruct (load_of_appended_files
              (fun q => if list_eq_dec ascii_dec q (lit "a") then
                          Some (file_of [lit "1.0"] [])
                        else if list_eq_dec ascii_dec q (lit "b") then
                          Some (file_of [lit "2.0"] (lit "9"))
                        else Some (file_of [lit "1.0"] [] ++
                                   file_of [lit "2.0"] (lit "9")))
              (lit "a") (lit "b") (lit "ab") [lit "1.0"] [lit "2.0"] (lit "9") [])
    as (da & db & Ha & Hb & Hab).
  - repeat (constructor; [vm_compute; intuition discriminate|]). constructor.
  - repeat (constructor; [vm_compute; intuition discriminate|]). constructor.
  - vm_compute; intuition discriminate.
  - vm_compute. reflexivity.
  - reflexivity.
  - reflexivity.
  - reflexivity.
  - exists da, db. split; [exact Hab|].
    vm_compute in Ha, Hb. inversion Ha. inversion Hb. reflexivity.
Defined.

(** ** The loops of the dialogue end *)

Lemma scan_line_shorter (s : str) :
  match scan_line s with
  | (l, Some r) => (length r < length s)%nat
  | (l, None) => l = s
  end.
Proof.
  induction s as [|c s IH]; [reflexivity|]. simpl.
  destruct (Ascii.eqb c nl); [simpl; lia|].
  destruct (scan_line s) as [l [r|]]; simpl; [lia|now f_equal].
Qed.

(** [getline] either fails, or takes at least one character. *)
Lemma getline_shorter (cin : istream) :
  failbit (fst (getline cin)) = true \/
  (length (buf (fst (getline cin))) < length (buf cin))%nat.
Proof.
  unfold getline. destruct (good cin); [|now left].
  pose proof (scan_line_shorter (buf cin)) as H.
  destruct (scan_line (buf cin)) as [l [r|]]; cbn [fst buf failbit].
  - now right.
  - subst l. destruct (buf cin); [now left|right; simpl; lia].
Qed.

Lemma options_loop_ends (message : str) (firstStringSet secondStringSet : list str) :
  forall (fuel : nat) (cin : istream) (out : list prompt),
  (length (buf cin) + 2 <= fuel)%nat ->
  exists r cin1 out1,
    options_loop fuel message firstStringSet secondStringSet cin out
    = Some (r, cin1, out1) /\
    ((r = Returned 1 \/ r = Returned (-1)) /\
     (length (buf cin1) < length (buf cin))%nat \/
     r = Undefined /\ failbit cin1 = true).
Proof.
  induction fuel as [|fuel IH]; intros cin out Hfuel; [lia|].
  cbn [options_loop].
  pose proof (getline_shorter cin) as Hget.
  destruct (getline cin) as [cin1 line]. cbn [fst] in Hget.
  destruct (failbit cin1) eqn:Hfail.
  - do 3 eexists. split; [reflexivity|]. right. now split.
  - destruct Hget as [Hget|Hget]; [discriminate|].
    destruct (matches firstStringSet line).
    + do 3 eexists. split; [reflexivity|]. left. split; [now left|exact Hget].
    + destruct (matches secondStringSet line).
      * do 3 eexists. split; [reflexivity|]. left. split; [now right|exact Hget].
      * destruct (IH cin1 (out ++ [NotValid message]) ltac:(lia))
          as (r & cin2 & out2 & Hloop & Hr).
        exists r, cin2, out2. split; [exact Hloop|].
        destruct Hr as [[Hr Hlen]|Hr]; [left; split; [exact Hr|lia]|now right].
Qed.

(** X24. On every input [Input::getBetweenTwoStringSetOptions] comes to
    an end: it answers 1 or -1 after taking at least one character
    from the input, or the input has ended and the value returned was
    never assigned; it answers nothing else. *)
Theorem getBetweenTwoStringSetOptions_ends
    (message : str) (firstStringSet secondStringSet : list str)
    (cin : istream) (out : list prompt) :
  exists r cin1 out1,
    options_loop (length (buf cin) + 2) message firstStringSet secondStringSet
                 cin out = Some (r, cin1, out1) /\
    getBetweenTwoStringSetOptions message firstStringSet secondStringSet cin out
    = (r, cin1, out1) /\
    ((r = Returned 1 \/ r = Returned (-1)) /\
     (length (buf cin1) < length (buf cin))%nat \/
     r = Undefined /\ failbit cin1 = true).
Proof.
  destruct (options_loop_ends message firstStringSet secondStringSet
              (length (buf cin) + 2) cin out (le_n _))
    as (r & cin1 & out1 & Hloop & Hr).
  exists r, cin1, out1. split; [exact Hloop|]. split; [|exact Hr].
  unfold getBetweenTwoStringSetOptions. now rewrite Hloop.
Qed.

Lemma getBool_ends (cin : istream) (out : list prompt) :
  exists r cin1 out1,
    getBool cin out = (r, cin1, out1) /\
    ((exists b, r = Returned b) /\ (length (buf cin1) < length (buf cin))%nat \/
     r = Undefined).
Proof.
  unfold getBool.
  destruct (options_loop_ends yay_or_nay validTrues validFalses
              (length (buf cin) + 2) cin out (le_n _))
    as (r & cin1 & out1 & Hloop & Hr).
  unfold getBetweenTwoStringSetOptions. rewrite Hloop.
  destruct Hr as [[[->| ->] Hlen]|[-> _]].
  - do 3 eexists. split; [reflexivity|]. left. split; [now eexists|exact Hlen].
  - do 3 eexists. split; [reflexivity|]. left. split; [now eexists|exact Hlen].
  - do 3 eexists. split; [reflexivity|]. now right.
Qed.

Lemma getline_not_longer (cin : istream) :
  (length (buf (fst (getline cin))) <= length (buf cin))%nat.
Proof.
  unfold getline. destruct (good cin); [|reflexivity].
  pose proof (scan_line_shorter (buf cin)) as H.
  destruct (scan_line (buf cin)) as [l [r|]]; cbn [fst buf]; simpl; lia.
Qed.

Lemma ask_loop_ends :
  forall (fuel : nat) (filesToLoad : list str) (cin : istream) (out : list prompt),
  (length (buf cin) + 2 <= fuel)%nat ->
  exists r cin1 out1,
    ask_loop fuel filesToLoad cin out = Some (r, cin1, out1) /\
    ((exists files, r = Returned files /\ files <> []) \/ r = Undefined).
Proof.
  induction fuel as [|fuel IH]; intros filesToLoad cin out Hfuel; [lia|].
  cbn [ask_loop].
  pose proof (getline_not_longer cin) as Hget.
  destruct (getline cin) as [cin1 temp]. cbn [fst] in Hget.
  destruct (getBool_ends cin1 (out ++ [EnterFileName; AnotherFile]))
    as (r & cin2 & out2 & Hbool & Hr).
  rewrite Hbool.
  destruct Hr as [[[b ->] Hlen]| ->].
  - destruct b.
    + apply IH. lia.
    + do 3 eexists. split; [reflexivity|]. left. eexists. split; [reflexivity|].
      intros H. now apply app_eq_nil in H as [_ H].
  - do 3 eexists. split; [reflexivity|]. now right.
Qed.

(** X25. On every input the dialogue of [main] comes to an end, and
    when it returns it returns at least one name: [main] always has a
    file to load. Otherwise the input ended while it was asking. *)
Theorem ask_files_ends (cin : istream) :
  exists r cin1 asked,
    ask_loop (length (buf cin) + 2) [] cin [Welcome] = Some (r, cin1, asked) /\
    ask_files cin = (r, cin1, asked) /\
    ((exists files, r = Returned files /\ files <> []) \/ r = Undefined).
Proof.
  destruct (ask_loop_ends (length (buf cin) + 2) [] cin [Welcome] (le_n _))
    as (r & cin1 & asked & Hloop & Hr).
  exists r, cin1, asked. split; [exact Hloop|]. split; [|exact Hr].
  unfold ask_files. now rewrite Hloop.
Qed.
